(** * osm-notes-geojson: the note harvester of [main.py]

    A shallow embedding of [main.py] and the properties of its adaptive
    subdivision of a country's bounding box into cells.

    Conventions of the embedding.
    - JSON data ([r.json()], the features, their properties and comments)
      are values of [val]; a Python [dict] with string keys is a
      [gmap string val].
    - Python [float] coordinates are rational numbers ([Q]): the
      arithmetic of the cells ([size / 2], [lon + new_size],
      [ceil((max_lon - min_lon) / INIT_CELL_SIZE)]) is taken exactly.
    - Python [str] is [string]; a character is a code point below 256.
    - A Python exception is a value of [exn]; code that can raise returns a
      [result].
    - [shapely] (the country polygon) and the HTTP API are collaborators of
      the program: they are the fields of [World]. *)

From stdpp Require Import gmap strings list.
From Stdlib Require Import Ascii QArith Qround Lqa Permutation Sorted.

#[local] Set Warnings "-register-all".
#[local] Open Scope Z_scope.

(** ** Python values and exceptions *)

Inductive val :=
  | VNone
  | VBool (b : bool)
  | VInt (z : Z)
  | VFloat (q : Q)
  | VStr (s : string)
  | VList (l : list val)
  | VDict (d : gmap string val).

Inductive exn :=
  | KeyError
  | IndexError
  | TypeError
  | ValueError
  | AttributeError
  | HTTPError.

Inductive result (A : Type) :=
  | Ok (a : A)
  | Raise (e : exn).
Arguments Ok {A} a.
Arguments Raise {A} e.

#[global] Instance result_ret : MRet result := λ A a, Ok a.

#[global] Instance result_bind : MBind result := λ A B k m,
  match m with
  | Ok a => k a
  | Raise e => Raise e
  end.

#[global] Instance result_fmap : FMap result := λ A B f m,
  match m with
  | Ok a => Ok (f a)
  | Raise e => Raise e
  end.

(** [bool(v)]: the truth value of a Python object. *)
Definition truthy (v : val) : bool :=
  match v with
  | VNone => false
  | VBool b => b
  | VInt z => negb (z =? 0)
  | VFloat q => negb (Qeq_bool q 0)
  | VStr s => negb (String.eqb s "")
  | VList l => match l with [] => false | _ => true end
  | VDict d => negb (bool_decide (d = ∅))
  end.

(** [v[k]] for a string key [k]: only a dict accepts it. *)
Definition getitem (v : val) (k : string) : result val :=
  match v with
  | VDict d => match d !! k with Some x => Ok x | None => Raise KeyError end
  | _ => Raise TypeError
  end.

(** [v[0]]. *)
Definition getitem0 (v : val) : result val :=
  match v with
  | VList l => match l with x :: _ => Ok x | [] => Raise IndexError end
  | VStr s => match s with String c _ => Ok (VStr (String c "")) | EmptyString => Raise IndexError end
  | VDict _ => Raise KeyError
  | _ => Raise TypeError
  end.

(** [v.get(k, default)]. *)
Definition dict_get (v : val) (k : string) (dflt : val) : result val :=
  match v with
  | VDict d => Ok (default dflt (d !! k))
  | _ => Raise AttributeError
  end.

(** ** Strings: [re.findall(r'#\S+', s)], [' '.join], [s[:4]] and [int(s)] *)

(** A code point below 256 that is white space for [str] (the class [\s]
    of a [str] pattern). *)
Definition isspace (c : ascii) : bool :=
  let n := N_of_ascii c in
  ((9 <=? n) && (n <=? 13) || (28 <=? n) && (n <=? 32) || (n =? 133) || (n =? 160))%N.

Definition hash_char : ascii := "#"%char.

Definition starts_nonspace (s : string) : bool :=
  match s with
  | String c _ => negb (isspace c)
  | EmptyString => false
  end.

Definition emit (cur : option string) (rest : list string) : list string :=
  match cur with
  | Some tok => tok :: rest
  | None => rest
  end.

(** The scan of [re.findall(r'#\S+', s)], left to right: [cur] is the match
    being extended, if any. A match starts at a [#] that is followed by a
    character that is not white space, and runs to the next white space. *)
Fixpoint findall_from (cur : option string) (s : string) : list string :=
  match s with
  | EmptyString => emit cur []
  | String c s' =>
      match cur with
      | Some tok =>
          if isspace c then tok :: findall_from None s'
          else findall_from (Some (tok +:+ String c "")) s'
      | None =>
          if Ascii.eqb c hash_char && starts_nonspace s'
          then findall_from (Some (String c "")) s'
          else findall_from None s'
      end
  end.

Definition re_findall_hashtags (s : string) : list string := findall_from None s.

(** [sep.join(l)]. *)
Definition str_join (sep : string) (l : list string) : string := String.concat sep l.

(** [s[:n]]. *)
Fixpoint str_take (n : nat) (s : string) : string :=
  match n, s with
  | S n', String c s' => String c (str_take n' s')
  | _, _ => EmptyString
  end.

(** The white space that [int] skips around the digits: of the characters
    of [isspace], not the separators 28 to 31. *)
Definition int_space (c : ascii) : bool :=
  let n := N_of_ascii c in
  ((9 <=? n) && (n <=? 13) || (n =? 32) || (n =? 133) || (n =? 160))%N.

Fixpoint lstrip (s : list ascii) : list ascii :=
  match s with
  | c :: s' => if int_space c then lstrip s' else s
  | [] => []
  end.

Definition strip (s : list ascii) : list ascii := rev (lstrip (rev (lstrip s))).

Definition digit_of (c : ascii) : option Z :=
  let n := N_of_ascii c in
  if ((48 <=? n) && (n <=? 57))%N then Some (Z.of_N n - 48) else None.

Definition underscore : ascii := "_"%char.

(** Decimal digits, where single underscores may separate two digits. *)
Fixpoint parse_digits (acc : Z) (after_digit : bool) (s : list ascii) : option Z :=
  match s with
  | [] => if after_digit then Some acc else None
  | c :: s' =>
      match digit_of c with
      | Some d => parse_digits (10 * acc + d) true s'
      | None =>
          if Ascii.eqb c underscore && after_digit
          then parse_digits acc false s'
          else None
      end
  end.

(** [int(s)] for a [str]: white space around, an optional sign, digits. *)
Definition int_of_string (s : string) : option Z :=
  match strip (String.list_ascii_of_string s) with
  | c :: s' =>
      if Ascii.eqb c "+"%char then parse_digits 0 false s'
      else if Ascii.eqb c "-"%char then Z.opp <$> parse_digits 0 false s'
      else parse_digits 0 false (c :: s')
  | [] => None
  end.

(** [re.findall(pattern, v)] wants a [str]. *)
Definition re_findall (v : val) : result (list string) :=
  match v with
  | VStr s => Ok (re_findall_hashtags s)
  | _ => Raise TypeError
  end.

(** [v[:4]]: a [str] or a [list] can be sliced. *)
Definition slice_to_4 (v : val) : result val :=
  match v with
  | VStr s => Ok (VStr (str_take 4 s))
  | VList l => Ok (VList (take 4 l))
  | _ => Raise TypeError
  end.

(** [int(v)]. *)
Definition py_int (v : val) : result Z :=
  match v with
  | VStr s => match int_of_string s with Some z => Ok z | None => Raise ValueError end
  | VInt z => Ok z
  | VBool b => Ok (if b then 1 else 0)
  | VFloat q => Ok (Z.quot (Qnum q) (Zpos (Qden q)))
  | _ => Raise TypeError
  end.

Arguments str_take : simpl never.
Arguments str_join : simpl never.
Arguments int_of_string : simpl never.
Arguments re_findall_hashtags : simpl never.


(** ** Dict updates *)

(** [v[k] = x]. *)
Definition setitem (v : val) (k : string) (x : val) : result val :=
  match v with
  | VDict d => Ok (VDict (<[k:=x]> d))
  | _ => Raise TypeError
  end.

(** [del v[k]]. *)
Definition delitem (v : val) (k : string) : result val :=
  match v with
  | VDict d => match d !! k with
               | Some _ => Ok (VDict (delete k d))
               | None => Raise KeyError
               end
  | _ => Raise TypeError
  end.

(** ** The object bound to [feature]

    [process_feature] works on the object that its argument refers to. A
    computation of [M] reads and updates the contents of that object and
    returns or raises; what it wrote before it raised stays written.

    The dicts and lists under a feature (its properties, its comments) are
    those that [r.json()] built for it: nothing else refers to them, and
    they are kept inside the value of the feature. *)

Definition M (A : Type) : Type := val → result A * val.

#[global] Instance M_ret : MRet M := λ A a σ, (Ok a, σ).

#[global] Instance M_bind : MBind M := λ A B k m σ,
  match m σ with
  | (Ok a, σ') => k a σ'
  | (Raise e, σ') => (Raise e, σ')
  end.

Definition lift {A} (r : result A) : M A := λ σ, (r, σ).

(** [feature]. *)
Definition the_feature : M val := λ σ, (Ok σ, σ).

(** [feature['properties'][k]]. *)
Definition get_prop (k : string) : M val :=
  feature ← the_feature;
  properties ← lift (getitem feature "properties");
  lift (getitem properties k).

(** The dict [feature['properties']] is updated in place: [feature] refers
    to the updated dict afterwards. *)
Definition update_properties (f : val → result val) : M unit :=
  λ σ, match σ with
       | VDict fd =>
           match fd !! "properties" with
           | Some properties =>
               match f properties with
               | Ok properties' => (Ok (), VDict (<["properties" := properties']> fd))
               | Raise e => (Raise e, σ)
               end
           | None => (Raise KeyError, σ)
           end
       | _ => (Raise TypeError, σ)
       end.

(** [feature['properties'][k] = x]. *)
Definition set_prop (k : string) (x : val) : M unit :=
  update_properties (λ properties, setitem properties k x).

(** [del feature['properties'][k]]. *)
Definition del_prop (k : string) : M unit :=
  update_properties (λ properties, delitem properties k).

Abbreviation loc := positive.
Abbreviation store := (gmap loc val).

Section process_feature.
(** [set(l)] is iterated in an order that the interpreter chooses: it
    depends on the hashes of the strings, which are salted per process. *)
Variable set_iter : list string → list string.

Definition process_feature : M val :=
  comments ← get_prop "comments";
  first_comment ← lift (getitem0 comments);
  user ← lift (dict_get first_comment "user" (VStr "anonymous"));
  set_prop "user" user;;
  text ← lift (getitem first_comment "text");
  set_prop "text" text;;
  text ← lift (getitem first_comment "text");
  hashtags ← lift (re_findall text);
  set_prop "tags" (VStr (str_join " " (set_iter hashtags)));;
  date ← lift (getitem first_comment "date");
  prefix ← lift (slice_to_4 date);
  year ← lift (py_int prefix);
  set_prop "year" (VInt year);;
  del_prop "url";;
  del_prop "comment_url";;
  del_prop "close_url";;
  del_prop "comments";;
  the_feature.

(** The value that a call returns, when it returns. *)
Definition process_feature_result (feature : val) : result val :=
  (process_feature feature).1.

(** *** Objects and references

    A reference is a location of the store of objects. The call
    [process_feature(feature)] runs the body on the object at [feature]
    and returns the reference it was given. *)
Definition call_process_feature (feature : loc) (h : store) : option (result loc * store) :=
  σ ← h !! feature;
  let '(r, σ') := process_feature σ in
  Some (match r with Ok _ => Ok feature | Raise e => Raise e end, <[feature := σ']> h).
End process_feature.

(** Two iteration orders of a set: by first occurrence, and its reverse. *)
Definition first_seen (l : list string) : list string := remove_dups l.
Definition last_seen (l : list string) : list string := reverse (remove_dups l).

Definition valid_set_iter (set_iter : list string → list string) : Prop :=
  ∀ l, NoDup (set_iter l) ∧ ∀ x, x ∈ set_iter l ↔ x ∈ l.

(** *** Notes, as the API describes them *)

Definition dict (l : list (string * val)) : val := VDict (list_to_map l).

Definition comment_dict (text date : string) : gmap string val :=
  list_to_map [("date", VStr date); ("uid", VInt 1626); ("user", VStr "FredB");
               ("action", VStr "opened"); ("text", VStr text)].

Definition comment (text : string) : val :=
  VDict (comment_dict text "2013-04-24 08:07:02 UTC").

Definition point (x y : Q) : val :=
  dict [("type", VStr "Point"); ("coordinates", VList [VFloat x; VFloat y])].

Definition note_properties (id : Z) (comments : list val) : gmap string val :=
  list_to_map [("id", VInt id); ("url", VStr "u"); ("comment_url", VStr "c");
               ("close_url", VStr "x"); ("date_created", VStr "2013-04-24 08:07:02 UTC");
               ("status", VStr "open"); ("comments", VList comments)].

Definition note_dict (id : Z) (x y : Q) (comments : list val) : gmap string val :=
  list_to_map [("type", VStr "Feature"); ("geometry", point x y);
               ("properties", VDict (note_properties id comments))].

Definition note (id : Z) (x y : Q) (comments : list val) : val :=
  VDict (note_dict id x y comments).

(** ** Cells, the country and the API *)

Definition API_LIMIT : Z := 10000.

Definition INIT_CELL_SIZE : Q := 4.

(** A cell is the argument triple of [process_cell]. *)
Record Cell := mkCell { lon : Q; lat : Q; size : Q }.

(** [box(minx, miny, maxx, maxy)] of [shapely], and the [bbox] of a query. *)
Record Box := box { minx : Q; miny : Q; maxx : Q; maxy : Q }.

Definition cell_box (c : Cell) : Box :=
  box (lon c) (lat c) (lon c + size c) (lat c + size c).

(** What the program is run against: the polygon of the country with the
    operations of [shapely] that the program calls, the API, and the
    iteration order of sets in this process. *)
Record World := {
  (** [country.intersects(b)] *)
  intersects : Box → bool;
  (** [country.contains(shape(geometry))] *)
  contains : val → bool;
  (** [country.bounds] *)
  bounds : Q * Q * Q * Q;
  (** [HTTP.get('notes.json', bbox, limit, closed=0)], [raise_for_status]
      and [r.json()['features']] *)
  get_notes : Box → result (list val);
  set_iter : list string → list string
}.

Section main.
Context (W : World).

(** The filter of the generator expression:
    [feature['properties']['comments'] and country.contains(shape(feature['geometry']))]. *)
Definition wanted (feature : val) : result bool :=
  properties ← getitem feature "properties";
  comments ← getitem properties "comments";
  if truthy comments then
    geometry ← getitem feature "geometry";
    Ok (contains W geometry)
  else Ok false.

(** [tuple(process_feature(feature) for feature in cell_result if ...)]. *)
Fixpoint cell_features (cell_result : list val) : result (list val) :=
  match cell_result with
  | [] => Ok []
  | feature :: rest =>
      keep ← wanted feature;
      if keep : bool then
        record ← process_feature_result (set_iter W) feature;
        records ← cell_features rest;
        Ok (record :: records)
      else cell_features rest
  end.

(** The four calls of [tg.start_soon] when the limit is reached. *)
Definition split_cell (c : Cell) : list Cell :=
  let new_size := (size c / 2)%Q in
  [ mkCell (lon c) (lat c) new_size;
    mkCell (lon c + new_size) (lat c) new_size;
    mkCell (lon c) (lat c + new_size) new_size;
    mkCell (lon c + new_size) (lat c + new_size) new_size ].

(** One task [process_cell(lon, lat, size)]: the cells it starts and the
    records it appends to [features]. *)
Definition process_cell (c : Cell) : result (list Cell * list val) :=
  if negb (intersects W (cell_box c)) then Ok ([], [])
  else
    cell_result ← get_notes W (cell_box c);
    if Z.of_nat (length cell_result) =? API_LIMIT then
      Ok (split_cell c, [])
    else
      records ← cell_features cell_result;
      Ok ([], records).

(** *** The task group

    The tasks that were started and have not finished, and the list
    [features]. Which task finishes next is not fixed: a step runs the
    task at a position that the schedule chooses. An exception in a task
    ends the task group. *)
Record Run := mkRun { tasks : list Cell; features : list val }.

Definition step (pick : nat) (s : Run) : result Run :=
  match tasks s !! pick with
  | None => Ok s
  | Some c =>
      '(started, records) ← process_cell c;
      Ok (mkRun (delete pick (tasks s) ++ started) (features s ++ records))
  end.

Fixpoint run_tasks (schedule : list nat) (s : Run) : result Run :=
  match schedule with
  | [] => Ok s
  | pick :: schedule' => s' ← step pick s; run_tasks schedule' s'
  end.

(** [range(n)]. *)
Definition range (n : Z) : list Z := Z.of_nat <$> seq 0 (Z.to_nat n).

(** The cells of the grid over [country.bounds], in the order in which
    the two loops start them. *)
Definition bootstrap_cells : list Cell :=
  let '(min_lon, min_lat, max_lon, max_lat) := bounds W in
  let lon_steps := Qceiling ((max_lon - min_lon) / INIT_CELL_SIZE) in
  let lat_steps := Qceiling ((max_lat - min_lat) / INIT_CELL_SIZE) in
  lon ← (λ i, min_lon + inject_Z i * INIT_CELL_SIZE)%Q <$> range lon_steps;
  lat ← (λ i, min_lat + inject_Z i * INIT_CELL_SIZE)%Q <$> range lat_steps;
  [mkCell lon lat INIT_CELL_SIZE].

(** *** [_save_result] *)

(** The sort key [f['properties']['id']]; the identifiers of the API are
    integers. *)
Definition feature_id (f : val) : result Z :=
  properties ← getitem f "properties";
  id ← getitem properties "id";
  match id with
  | VInt z => Ok z
  | _ => Raise TypeError
  end.

Fixpoint with_keys (l : list val) : result (list (Z * val)) :=
  match l with
  | [] => Ok []
  | f :: l' => k ← feature_id f; kl ← with_keys l'; Ok ((k, f) :: kl)
  end.

Fixpoint insert_by_key (x : Z * val) (l : list (Z * val)) : list (Z * val) :=
  match l with
  | [] => [x]
  | y :: l' => if x.1 <=? y.1 then x :: l else y :: insert_by_key x l'
  end.

(** [sorted(features, key=...)]: a stable sort. *)
Definition sorted_by_id (l : list val) : result (list val) :=
  keyed ← with_keys l;
  Ok ((foldr insert_by_key [] keyed).*2).

(** The ['features'] of the collection that [_save_result] writes. *)
Definition save_result (l : list val) : result (list val) := sorted_by_id l.

(** *** [main] *)

Inductive outcome :=
  | Saved (collection : list val)   (** the file was written *)
  | Failed (e : exn)                (** an exception left [main]: no file *)
  | Unfinished.                     (** tasks are still running *)

Definition main (schedule : list nat) : outcome :=
  match run_tasks schedule (mkRun bootstrap_cells []) with
  | Raise e => Failed e
  | Ok s =>
      match tasks s with
      | [] => match save_result (features s) with
              | Ok collection => Saved collection
              | Raise e => Failed e
              end
      | _ :: _ => Unfinished
      end
  end.
End main.

(** ** Rectangles *)

(** The points of a box, its border included, and the points strictly
    inside it. *)
Definition in_box (b : Box) (x y : Q) : Prop :=
  (minx b <= x ∧ x <= maxx b ∧ miny b <= y ∧ y <= maxy b)%Q.

Definition inside_box (b : Box) (x y : Q) : Prop :=
  (minx b < x ∧ x < maxx b ∧ miny b < y ∧ y < maxy b)%Q.

(** The points of a box without its upper and right border. *)
Definition in_half_open (b : Box) (x y : Q) : Prop :=
  (minx b <= x ∧ x < maxx b ∧ miny b <= y ∧ y < maxy b)%Q.

(** ** What [process_feature] computes

    The properties of the record that [process_feature] leaves, as a
    function of the properties [pd] of the raw item and of its first
    comment; [process_feature_eval] below relates it to the statements of
    the source. *)
Definition normalized_properties (set_iter : list string → list string)
    (pd : gmap string val) (first_comment : val) : result (gmap string val) :=
  user ← dict_get first_comment "user" (VStr "anonymous");
  text ← getitem first_comment "text";
  hashtags ← re_findall text;
  date ← getitem first_comment "date";
  prefix ← slice_to_4 date;
  year ← py_int prefix;
  let pd' := <["year" := VInt year]>
               (<["tags" := VStr (str_join " " (set_iter hashtags))]>
                  (<["text" := text]> (<["user" := user]> pd))) in
  if bool_decide (is_Some (pd' !! "url") ∧ is_Some (pd' !! "comment_url")
                  ∧ is_Some (pd' !! "close_url") ∧ is_Some (pd' !! "comments"))
  then Ok (delete "comments" (delete "close_url" (delete "comment_url" (delete "url" pd'))))
  else Raise KeyError.

(** The feature [fd] with the dict [pd] as its ['properties']. *)
Definition with_properties (fd pd : gmap string val) : val :=
  VDict (<["properties" := VDict pd]> fd).

(** ** Records of the output *)

(** A record whose geometry is within the country. *)
Definition within (W : World) (r : val) : Prop :=
  ∃ g, getitem r "geometry" = Ok g ∧ contains W g = true.

(** The identifier of a record that has one. *)
Definition id_or_0 (f : val) : Z :=
  match feature_id f with Ok k => k | Raise _ => 0 end.

Definition key_le (a b : Z * val) : Prop := a.1 ≤ b.1.

Definition id_le (a b : val) : Prop := id_or_0 a ≤ id_or_0 b.

(** The record without its [tags]. *)
Definition erase_tags (r : val) : val :=
  match r with
  | VDict fd =>
      match fd !! "properties" with
      | Some (VDict pd) => VDict (<["properties" := VDict (delete "tags" pd)]> fd)
      | _ => r
      end
  | _ => r
  end.

(** ** The tree of tasks

    [harvest W cells records]: the tasks of [cells], and all the tasks that
    they start in turn, return, and [records] is what they append to
    [features] (in the order of a depth-first run). *)
Inductive harvest (W : World) : list Cell → list val → Prop :=
  | harvest_nil : harvest W [] []
  | harvest_cons c cells started records below others :
      process_cell W c = Ok (started, records) →
      harvest W started below →
      harvest W cells others →
      harvest W (c :: cells) (records ++ below ++ others).

(** ** The API and the country, from outside

    The API is not part of the program. As the specification describes it,
    it answers a query with the open notes that its bounding box has (the
    notes whose point is in the box, border included), up to the limit of
    the query. *)

Definition number (v : val) : option Q :=
  match v with
  | VFloat q => Some q
  | VInt z => Some (inject_Z z)
  | _ => None
  end.

(** The coordinates of a GeoJSON point. *)
Definition point_of_geometry (g : val) : option (Q * Q) :=
  match getitem g "coordinates" with
  | Ok (VList [vx; vy]) => x ← number vx; y ← number vy; Some (x, y)
  | _ => None
  end.

Definition feature_point (f : val) : option (Q * Q) :=
  match getitem f "geometry" with
  | Ok g => point_of_geometry g
  | Raise _ => None
  end.

Definition in_box_b (b : Box) (x y : Q) : bool :=
  Qle_bool (minx b) x && Qle_bool x (maxx b) && Qle_bool (miny b) y && Qle_bool y (maxy b).

Definition in_bbox (b : Box) (f : val) : bool :=
  match feature_point f with
  | Some (x, y) => in_box_b b x y
  | None => false
  end.

Definition notes_in (dataset : list val) (b : Box) : result (list val) :=
  Ok (take (Z.to_nat API_LIMIT) (filter (λ f, in_bbox b f = true) dataset)).

Definition bounds_box (W : World) : Box :=
  let '(min_lon, min_lat, max_lon, max_lat) := bounds W in
  box min_lon min_lat max_lon max_lat.

(** What [shapely] guarantees of a point that the country contains: it is
    in the bounds of the country, and every box that has the point
    intersects the country. *)
Definition sound_country (W : World) : Prop :=
  ∀ g x y, point_of_geometry g = Some (x, y) → contains W g = true →
    in_box (bounds_box W) x y ∧ ∀ b, in_box b x y → intersects W b = true.

(** Two runs against the same country and the same notes. *)
Definition same_data (W1 W2 : World) : Prop :=
  (∀ b, intersects W1 b = intersects W2 b)
  ∧ (∀ g, contains W1 g = contains W2 g)
  ∧ bounds W1 = bounds W2
  ∧ (∀ b, get_notes W1 b = get_notes W2 b).

(** *** A country that is a rectangle *)

Definition overlaps (a b : Box) : bool :=
  Qle_bool (minx a) (maxx b) && Qle_bool (minx b) (maxx a)
  && Qle_bool (miny a) (maxy b) && Qle_bool (miny b) (maxy a).

Definition Qlt_bool (x y : Q) : bool := negb (Qle_bool y x).

Definition strictly_inside (a : Box) (g : val) : bool :=
  match point_of_geometry g with
  | Some (x, y) =>
      Qlt_bool (minx a) x && Qlt_bool x (maxx a) && Qlt_bool (miny a) y && Qlt_bool y (maxy a)
  | None => false
  end.

Definition rectangle_world (country : Box) (dataset : list val)
    (set_iter : list string → list string) : World :=
  {| intersects := overlaps country;
     contains := strictly_inside country;
     bounds := (minx country, miny country, maxx country, maxy country);
     get_notes := notes_in dataset;
     set_iter := set_iter |}.

(** ** The effect of [process_feature] on the properties *)

(** The properties after the four assignments and the four deletions. *)
Definition updated_properties (pd : gmap string val) (user text tags : val) (year : Z)
    : gmap string val :=
  delete "comments" (delete "close_url" (delete "comment_url" (delete "url"
    (<["year" := VInt year]> (<["tags" := tags]> (<["text" := text]> (<["user" := user]> pd))))))).

Definition touched : list string :=
  ["user"; "text"; "tags"; "year"; "url"; "comment_url"; "close_url"; "comments"].

(** The [tags] of the records of a collection. *)
Definition tags_of (collection : list val) : list (result val) :=
  (λ r, properties ← getitem r "properties"; getitem properties "tags") <$> collection.

(** The record of [note id x y [comment text]], with the given [tags]. *)
Definition record (id : Z) (x y : Q) (text tags : string) : val :=
  dict [("type", VStr "Feature"); ("geometry", point x y);
        ("properties",
          dict [("id", VInt id); ("date_created", VStr "2013-04-24 08:07:02 UTC");
                ("status", VStr "open"); ("user", VStr "FredB"); ("text", VStr text);
                ("tags", VStr tags); ("year", VInt 2013)])].

(** ** Small worlds *)

(** Two bootstrap cells, (0,0,4) and (4,0,4), and one note on their common
    border. *)
Definition border_note : val := note 1 4 2 [comment "bench"].

Definition two_cell_world : World :=
  rectangle_world (box 0 0 8 4) [border_note] first_seen.

(** One cell and one note with two hashtags; the order of sets is left open. *)
Definition hashtag_world (set_iter : list string → list string) : World :=
  rectangle_world (box 0 0 4 4) [note 1 1 1 [comment "#a #b"]] set_iter.

(** One cell; a note inside the country and a note on its border, which
    the bounding box of the query has and the country does not contain. *)
Definition edge_world : World :=
  rectangle_world (box 0 0 4 4)
    [note 1 1 1 [comment "inside"]; note 2 4 4 [comment "on the border"]] first_seen.

(** One cell with as many notes as the limit. *)
Definition full_notes : list val :=
  replicate (Z.to_nat API_LIMIT) (note 1 1 1 [comment "crowded"]).

Definition full_world : World := rectangle_world (box 0 0 4 4) full_notes first_seen.

(** A note without comments between two notes with one. *)
Definition silent_note : val := note 2 2 2 [].

Definition silent_world : World :=
  rectangle_world (box 0 0 4 4)
    [note 1 1 1 [comment "a"]; silent_note; note 3 3 3 [comment "b"]] first_seen.

(** The API does not answer. *)
Definition offline_world : World :=
  {| intersects := λ _, true; contains := λ _, true; bounds := (0, 0, 4, 4)%Q;
     get_notes := λ _, Raise HTTPError; set_iter := first_seen |}.

(** A note whose first comment has a date that does not start with a year. *)
Definition undated_note : val := note 7 1 2 [VDict (comment_dict "a #b" "soon")].

Definition undated_world : World :=
  rectangle_world (box 0 0 4 4) [undated_note] first_seen.

(** A note without [url], and a note whose first comment has a number as
    its text. *)
Definition note_without_url : val :=
  VDict (<["properties" := VDict (delete "url" (note_properties 7 [comment "a #b"]))]>
           (note_dict 7 1 2 [comment "a #b"])).

Definition note_with_number_text : val :=
  note 7 1 2 [VDict (<["text" := VInt 5]> (comment_dict "" "2013-04-24 08:07:02 UTC"))].

(** ** [_load_country_shape] *)

(** What the call gives: the geometry that [shape] is applied to, the
    [StopIteration] of [next], or another exception. *)
Inductive loaded :=
  | Shape (geometry : val)
  | StopIteration
  | LoadError (e : exn).

(** [c['properties']['tags']['ISO3166-1'] == 'PL']. *)
Definition is_PL (c : val) : result bool :=
  properties ← getitem c "properties";
  tags ← getitem properties "tags";
  code ← getitem tags "ISO3166-1";
  Ok (match code with VStr s => String.eqb s "PL" | _ => false end).

(** [next(c for c in countries if ...)], then [country['geometry']]. *)
Fixpoint first_PL (countries : list val) : loaded :=
  match countries with
  | [] => StopIteration
  | c :: rest =>
      match is_PL c with
      | Raise e => LoadError e
      | Ok true =>
          match getitem c "geometry" with
          | Ok geometry => Shape geometry
          | Raise e => LoadError e
          end
      | Ok false => first_PL rest
      end
  end.

(** [_load_country_shape], from the value that [json.load(f)] returns. A
    dict is iterated over its keys and a string over its characters,
    neither of which has a ['properties']. *)
Definition _load_country_shape (file : val) : loaded :=
  match getitem file "features" with
  | Raise e => LoadError e
  | Ok countries =>
      match countries with
      | VList l => first_PL l
      | VDict d => if bool_decide (d = ∅) then StopIteration else LoadError TypeError
      | VStr s => if String.eqb s "" then StopIteration else LoadError TypeError
      | _ => LoadError TypeError
      end
  end.

(** ** The file of [_save_result] *)

(** [datetime.now()]. *)
Record datetime := mkDatetime {
  dt_year : Z; dt_month : Z; dt_day : Z;
  dt_hour : Z; dt_minute : Z; dt_second : Z; dt_microsecond : Z
}.

(** The decimal digit of the units of [n]. *)
Definition digit (n : Z) : ascii := ascii_of_N (48 + Z.to_N (n mod 10)).

(** [%m], [%d], [%H], [%M], [%S]: two digits. *)
Definition digits2 (n : Z) (rest : string) : string :=
  String (digit (n / 10)) (String (digit n) rest).

(** [%Y]: four digits, for the years from 1000 on. (Earlier years are
    written with or without leading zeros, by the C library.) *)
Definition digits4 (n : Z) (rest : string) : string :=
  String (digit (n / 1000)) (String (digit (n / 100)) (digits2 n rest)).

(** [now.strftime("%Y-%m-%d_%H-%M-%S")]. *)
Definition strftime (now : datetime) : string :=
  digits4 (dt_year now) (String "-" (digits2 (dt_month now) (String "-"
    (digits2 (dt_day now) (String "_" (digits2 (dt_hour now) (String "-"
      (digits2 (dt_minute now) (String "-" (digits2 (dt_second now) "")))))))))).

(** [f'notes_{...}.geojson']. *)
Definition filename (now : datetime) : string :=
  "notes_" +:+ strftime now +:+ ".geojson".

(** The dict that [json.dump] writes. *)
Definition geojson (features : list val) : result val :=
  sorted ← sorted_by_id features;
  Ok (dict [("type", VStr "FeatureCollection"); ("features", VList sorted)]).

(** [_save_result(features)] at the time [now], on the files [fs] of the
    working directory (a file as the value that was dumped to it):
    [open(filename, 'w')] creates the file or replaces what it had. *)
Definition _save_result (now : datetime) (features : list val) (fs : gmap string val)
    : result (gmap string val) :=
  document ← geojson features;
  Ok (<[filename now := document]> fs).

(** A time of a running clock. *)
Definition clock_time (t : datetime) : Prop :=
  1000 ≤ dt_year t ≤ 9999 ∧ 1 ≤ dt_month t ≤ 12 ∧ 1 ≤ dt_day t ≤ 31
  ∧ 0 ≤ dt_hour t ≤ 23 ∧ 0 ≤ dt_minute t ≤ 59 ∧ 0 ≤ dt_second t ≤ 59.

(** The two times are in the same second. *)
Definition same_second (t1 t2 : datetime) : Prop :=
  dt_year t1 = dt_year t2 ∧ dt_month t1 = dt_month t2 ∧ dt_day t1 = dt_day t2
  ∧ dt_hour t1 = dt_hour t2 ∧ dt_minute t1 = dt_minute t2 ∧ dt_second t1 = dt_second t2.

(** ** Items, records and texts *)

(** The item passes the filter of the generator expression. *)
Definition is_wanted (W : World) (feature : val) : bool :=
  match wanted W feature with
  | Ok true => true
  | _ => false
  end.

(** A record that [process_feature] returned for an item that passed the
    filter. *)
Definition normalized (W : World) (r : val) : Prop :=
  ∃ feature, wanted W feature = Ok true
             ∧ process_feature_result (set_iter W) feature = Ok r.

(** What can be read of the object [σ] outside the properties that
    [process_feature] assigns or deletes is what could be read of
    [feature]. *)
Definition same_reads (feature σ : val) : Prop :=
  (∀ k, k ≠ "properties" → getitem σ k = getitem feature k)
  ∧ (∀ k, k ∉ touched → (get_prop k σ).1 = (get_prop k feature).1).

(** A computation that keeps [same_reads feature]. *)
Definition keeps_reads {A} (feature : val) (m : M A) : Prop :=
  ∀ σ, same_reads feature σ → same_reads feature (m σ).2.

(** No character of [s] is white space. *)
Fixpoint no_space (s : string) : bool :=
  match s with
  | EmptyString => true
  | String c s' => negb (isspace c) && no_space s'
  end.

(** No character of [s] is a [#]. *)
Fixpoint no_hash (s : string) : bool :=
  match s with
  | EmptyString => true
  | String c s' => negb (Ascii.eqb c hash_char) && no_hash s'
  end.

(** A [#], one character or more after it, and no white space. *)
Definition is_hashtag (t : string) : Prop :=
  ∃ t', t = String hash_char t' ∧ t' ≠ EmptyString ∧ no_space t = true.

(** The text ends here, or goes on with white space. *)
Definition ends_word (s : string) : bool :=
  match s with
  | EmptyString => true
  | String c _ => isspace c
  end.

(** ** The cells of a run *)

(** The feature is a note at the point (x, y). *)
Definition is_at (x y : Q) (f : val) : bool :=
  match feature_point f with
  | Some (x', y') => Qeq_bool x' x && Qeq_bool y' y
  | None => false
  end.

(** The grid of the bootstrap, as one box. *)
Definition grid_box (W : World) : Box :=
  let '(min_lon, min_lat, max_lon, max_lat) := bounds W in
  box min_lon min_lat
    (min_lon + inject_Z (Qceiling ((max_lon - min_lon) / INIT_CELL_SIZE)) * INIT_CELL_SIZE)
    (min_lat + inject_Z (Qceiling ((max_lat - min_lat) / INIT_CELL_SIZE)) * INIT_CELL_SIZE).

(** The box [a] lies within the box [b]. *)
Definition subbox (a b : Box) : Prop :=
  (minx b <= minx a ∧ maxx a <= maxx b ∧ miny b <= miny a ∧ maxy a <= maxy b)%Q.

(** The size is [INIT_CELL_SIZE] halved [k] times. *)
Definition halved (k : nat) (c : Cell) : Prop :=
  (size c * inject_Z (2 ^ Z.of_nat k) == INIT_CELL_SIZE)%Q.

(** A cell that the bootstrap or a split can start. *)
Definition grid_cell (W : World) (c : Cell) : Prop :=
  (∃ k, halved k c) ∧ subbox (cell_box c) (grid_box W).

(** The number of tasks of a cell that is split [n] times at all of its
    descendants. *)
Fixpoint tree_size (n : nat) : nat :=
  match n with
  | O => 1
  | S n' => 1 + 4 * tree_size n'
  end.

(** The tasks that a pool of cells may still need, when no cell of depth
    [d] is split: [ks] are the depths of the cells. *)
Definition pool_size (d : nat) (ks : list nat) : nat :=
  sum_list_with (λ k, tree_size (d - k)) ks.

(** The cell is [INIT_CELL_SIZE] halved [k] times, [k] at most [d]. *)
Definition at_depth (d : nat) (c : Cell) (k : nat) : Prop := halved k c ∧ (k ≤ d)%nat.

(** ** More small worlds *)

(** A feature of the file of countries, with its country code. *)
Definition country_feature (code : string) (geometry : val) : val :=
  dict [("type", VStr "Feature");
        ("properties", dict [("tags", dict [("ISO3166-1", VStr code); ("name", VStr "n")])]);
        ("geometry", geometry)].

(** The file of countries, with the features [l]. *)
Definition countries_file (l : list val) : val :=
  dict [("type", VStr "FeatureCollection"); ("features", VList l)].

(** A feature without the tag of the country code. *)
Definition untagged_feature : val :=
  dict [("type", VStr "Feature"); ("properties", dict [("tags", dict [("name", VStr "sea")])]);
        ("geometry", VNone)].

(** A note without [id]. *)
Definition note_without_id : val :=
  VDict (<["properties" := VDict (delete "id" (note_properties 7 [comment "a #b"]))]>
           (note_dict 7 1 2 [comment "a #b"])).

(** One cell, and the note without [id] inside the country. *)
Definition nameless_world : World :=
  rectangle_world (box 0 0 4 4) [note_without_id] first_seen.

(** * Properties *)

(** ** Examples *)

Example findall_ex1 :
  re_findall_hashtags "fix #surveyme now ##a # b#c#d #" = ["#surveyme"; "##a"; "#c#d"].
Proof. reflexivity. Qed.

Example int_ex1 : int_of_string "2013" = Some 2013. Proof. reflexivity. Qed.
Example int_ex2 : int_of_string " 12 " = Some 12. Proof. reflexivity. Qed.
Example int_ex3 : int_of_string "1_3" = Some 13. Proof. reflexivity. Qed.
Example int_ex4 : int_of_string "-123" = Some (-123). Proof. reflexivity. Qed.
Example int_ex5 : int_of_string "20a3" = None. Proof. reflexivity. Qed.
Example int_ex6 : int_of_string "1__3" = None. Proof. reflexivity. Qed.
Example int_ex7 : int_of_string "" = None. Proof. reflexivity. Qed.
Example int_ex8 : int_of_string (String (ascii_of_N 28) "12") = None. Proof. reflexivity. Qed.
Example int_ex9 : int_of_string (String (ascii_of_N 160) "12") = Some 12. Proof. reflexivity. Qed.
Example int_ex10 : int_of_string "+ 12" = None. Proof. reflexivity. Qed.
Example int_ex11 : int_of_string "0012" = Some 12. Proof. reflexivity. Qed.

Example findall_ex2 : re_findall_hashtags "##" = ["##"]. Proof. reflexivity. Qed.
Example findall_ex3 : re_findall_hashtags "# #a" = ["#a"]. Proof. reflexivity. Qed.
Example findall_ex4 :
  re_findall_hashtags ("a" +:+ String (ascii_of_N 28) "#b" +:+ String (ascii_of_N 28) "c") = ["#b"].
Proof. reflexivity. Qed.

Example process_feature_ex1 :
  process_feature_result first_seen (note 7 1 2 [comment "missing #bench near #fountain"]) =
  Ok (record 7 1 2 "missing #bench near #fountain" "#bench #fountain").
Proof. vm_compute. reflexivity. Qed.

(** ** The grid of the bootstrap *)

Lemma elem_of_range (i n : Z) : i ∈ range n ↔ 0 ≤ i < n.
Proof.
  unfold range. rewrite list_elem_of_fmap. split.
  - intros (k & -> & Hk). apply elem_of_seq in Hk. lia.
  - intros H. exists (Z.to_nat i). split; [lia|]. apply elem_of_seq. lia.
Qed.

Lemma elem_of_bootstrap_cells W min_lon min_lat max_lon max_lat c :
  bounds W = (min_lon, min_lat, max_lon, max_lat) →
  c ∈ bootstrap_cells W ↔
  ∃ i j, 0 ≤ i < Qceiling ((max_lon - min_lon) / INIT_CELL_SIZE)
       ∧ 0 ≤ j < Qceiling ((max_lat - min_lat) / INIT_CELL_SIZE)
       ∧ c = mkCell (min_lon + inject_Z i * INIT_CELL_SIZE)
                    (min_lat + inject_Z j * INIT_CELL_SIZE) INIT_CELL_SIZE.
Proof.
  intros HW. unfold bootstrap_cells. rewrite HW.
  rewrite list_elem_of_bind. split.
  - intros (lo & Hc & Hlo). apply list_elem_of_bind in Hc as (la & Hc & Hla).
    apply list_elem_of_fmap in Hlo as (i & -> & Hi).
    apply list_elem_of_fmap in Hla as (j & -> & Hj).
    apply elem_of_range in Hi, Hj. apply list_elem_of_singleton in Hc.
    eauto 6.
  - intros (i & j & Hi & Hj & ->). eexists. split.
    + apply list_elem_of_bind. eexists. split; [apply list_elem_of_singleton; reflexivity|].
      apply list_elem_of_fmap. exists j. split; [done|]. by apply elem_of_range.
    + apply list_elem_of_fmap. exists i. split; [done|]. by apply elem_of_range.
Qed.

(** A coordinate of the interval lies in one of the steps over it. *)
Lemma step_covers (lo hi x : Q) :
  (lo < hi)%Q → (lo <= x)%Q → (x <= hi)%Q →
  ∃ i, 0 ≤ i < Qceiling ((hi - lo) / INIT_CELL_SIZE)
     ∧ (lo + inject_Z i * INIT_CELL_SIZE <= x)%Q
     ∧ (x <= lo + inject_Z i * INIT_CELL_SIZE + INIT_CELL_SIZE)%Q.
Proof.
  intros Hlt Hlo Hhi. unfold INIT_CELL_SIZE.
  unfold Qdiv. change (/ 4)%Q with (1 # 4)%Q.
  set (n := Qceiling ((hi - lo) * (1 # 4))).
  pose proof (Qle_ceiling ((hi - lo) * (1 # 4))) as Hn. fold n in Hn.
  pose proof (Qfloor_le ((x - lo) * (1 # 4))) as Hf1.
  pose proof (Qlt_floor ((x - lo) * (1 # 4))) as Hf2.
  set (k := Qfloor ((x - lo) * (1 # 4))) in *.
  rewrite inject_Z_plus in Hf2. change (inject_Z 1) with 1%Q in Hf2.
  assert (Hn1 : 0 < n).
  { rewrite Zlt_Qlt. change (inject_Z 0) with 0%Q. lra. }
  assert (Hk0 : -1 < k).
  { rewrite Zlt_Qlt. change (inject_Z (-1)) with (-1)%Q. lra. }
  destruct (Z_lt_le_dec k n) as [Hk|Hk].
  - exists k. split; [lia|]. split; lra.
  - exists (n - 1). split; [lia|].
    rewrite Zle_Qle in Hk.
    assert (Hn2 : (inject_Z (n - 1) == inject_Z n - 1)%Q).
    { unfold Z.sub. rewrite inject_Z_plus, inject_Z_opp. reflexivity. }
    split; lra.
Qed.


(** ** The split of a cell *)

Ltac qhalf := unfold Qdiv in *; change (/ 2)%Q with (1 # 2)%Q in *.

Lemma split_cell_no_gaps c x y :
  in_box (cell_box c) x y ↔ ∃ child, child ∈ split_cell c ∧ in_box (cell_box child) x y.
Proof.
  unfold split_cell, in_box, cell_box; simpl. qhalf. split.
  - intros (Hx0 & Hx1 & Hy0 & Hy1).
    destruct (Qlt_le_dec x (lon c + size c * (1 # 2))) as [Hx|Hx];
      destruct (Qlt_le_dec y (lat c + size c * (1 # 2))) as [Hy|Hy].
    + eexists. split; [apply list_elem_of_here|]. simpl. repeat split; lra.
    + eexists. split; [do 2 apply list_elem_of_further; apply list_elem_of_here|]. simpl. repeat split; lra.
    + eexists. split; [do 1 apply list_elem_of_further; apply list_elem_of_here|]. simpl. repeat split; lra.
    + eexists. split; [do 3 apply list_elem_of_further; apply list_elem_of_here|]. simpl. repeat split; lra.
  - intros (child & Hc & Hx0 & Hx1 & Hy0 & Hy1).
    rewrite !elem_of_cons, elem_of_nil in Hc.
    destruct Hc as [->|[->|[->|[->|[]]]]]; simpl in *; repeat split; lra.
Qed.

(** The centre of a cell is in the box of each of its four quarters. *)
Lemma centre_in_every_child c child :
  (0 <= size c)%Q → child ∈ split_cell c →
  in_box (cell_box child) (lon c + size c / 2) (lat c + size c / 2).
Proof.
  unfold split_cell, in_box, cell_box. qhalf. intros Hs Hc.
  rewrite !elem_of_cons, elem_of_nil in Hc.
  destruct Hc as [->|[->|[->|[->|[]]]]]; simpl; repeat split; lra.
Qed.

(** Without the upper and right borders, the four quarters partition the
    cell. *)
Lemma split_cell_partition c x y :
  (in_half_open (cell_box c) x y ↔
   ∃ child, child ∈ split_cell c ∧ in_half_open (cell_box child) x y)
  ∧ (∀ i j ci cj,
       split_cell c !! i = Some ci → split_cell c !! j = Some cj →
       in_half_open (cell_box ci) x y → in_half_open (cell_box cj) x y → i = j).
Proof.
  unfold split_cell, in_half_open, cell_box; simpl. qhalf. split; [split|].
  - intros (Hx0 & Hx1 & Hy0 & Hy1).
    destruct (Qlt_le_dec x (lon c + size c * (1 # 2))) as [Hx|Hx];
      destruct (Qlt_le_dec y (lat c + size c * (1 # 2))) as [Hy|Hy].
    + eexists. split; [apply list_elem_of_here|]. simpl. repeat split; lra.
    + eexists. split; [do 2 apply list_elem_of_further; apply list_elem_of_here|].
      simpl. repeat split; lra.
    + eexists. split; [do 1 apply list_elem_of_further; apply list_elem_of_here|].
      simpl. repeat split; lra.
    + eexists. split; [do 3 apply list_elem_of_further; apply list_elem_of_here|].
      simpl. repeat split; lra.
  - intros (child & Hc & Hx0 & Hx1 & Hy0 & Hy1).
    rewrite !elem_of_cons, elem_of_nil in Hc.
    destruct Hc as [->|[->|[->|[->|[]]]]]; simpl in *; repeat split; lra.
  - intros i j ci cj Hi Hj (? & ? & ? & ?) (? & ? & ? & ?).
    destruct i as [|[|[|[|i]]]]; simplify_eq/=;
      destruct j as [|[|[|[|j]]]]; simplify_eq/=; try done; lra.
Qed.

Lemma split_cell_no_overlap c i j ci cj x y :
  split_cell c !! i = Some ci → split_cell c !! j = Some cj → i ≠ j →
  ¬ (inside_box (cell_box ci) x y ∧ inside_box (cell_box cj) x y).
Proof.
  unfold split_cell, inside_box, cell_box. qhalf.
  intros Hi Hj Hne [(? & ? & ? & ?) (? & ? & ? & ?)].
  destruct i as [|[|[|[|i]]]]; simplify_eq/=;
    destruct j as [|[|[|[|j]]]]; simplify_eq/=; lra.
Qed.


(** ** [process_feature] *)

Lemma with_properties_id fd pd :
  fd !! "properties" = Some (VDict pd) → VDict fd = with_properties fd pd.
Proof. intros H. unfold with_properties. by rewrite insert_id. Qed.

Lemma get_prop_with fd pd k :
  get_prop k (with_properties fd pd) = (getitem (VDict pd) k, with_properties fd pd).
Proof.
  unfold get_prop, with_properties, the_feature, lift, mbind, M_bind, getitem at 1.
  by rewrite lookup_insert_eq.
Qed.

Lemma set_prop_with fd pd k x :
  set_prop k x (with_properties fd pd) = (Ok (), with_properties fd (<[k:=x]> pd)).
Proof.
  unfold set_prop, update_properties, with_properties, setitem.
  by rewrite lookup_insert_eq, insert_insert_eq.
Qed.

Lemma del_prop_with fd pd k :
  del_prop k (with_properties fd pd) =
  match pd !! k with
  | Some _ => (Ok (), with_properties fd (delete k pd))
  | None => (Raise KeyError, with_properties fd pd)
  end.
Proof.
  unfold del_prop, update_properties, with_properties, delitem.
  rewrite lookup_insert_eq. destruct (pd !! k); [|done].
  by rewrite insert_insert_eq.
Qed.

Lemma process_feature_eval si fd pd comments first_comment :
  pd !! "comments" = Some comments → getitem0 comments = Ok first_comment →
  (process_feature si (with_properties fd pd)).1 =
  (pd' ← normalized_properties si pd first_comment; Ok (with_properties fd pd')).
Proof.
  intros Hc H0. unfold process_feature, normalized_properties.
  unfold mbind at 1. unfold M_bind at 1. rewrite get_prop_with. simpl. rewrite Hc.
  unfold mbind at 1, M_bind at 1, lift at 1. rewrite H0.
  unfold mbind at 1, M_bind at 1, lift at 1.
  destruct (dict_get first_comment "user" (VStr "anonymous")) as [user|e]; [|done]. simpl.
  unfold mbind at 1, M_bind at 1. rewrite set_prop_with.
  unfold mbind at 1, M_bind at 1, lift at 1.
  destruct (getitem first_comment "text") as [text|e]; [|done]. simpl.
  unfold mbind at 1, M_bind at 1. rewrite set_prop_with.
  unfold mbind at 1, M_bind at 1, lift at 1.
  unfold mbind at 1, M_bind at 1, lift at 1.
  destruct (re_findall text) as [hashtags|e]; [|done]. simpl.
  unfold mbind at 1, M_bind at 1. rewrite set_prop_with.
  unfold mbind at 1, M_bind at 1, lift at 1.
  destruct (getitem first_comment "date") as [date|e]; [|done]. simpl.
  unfold mbind at 1, M_bind at 1, lift at 1.
  destruct (slice_to_4 date) as [prefix|e]; [|done]. simpl.
  unfold mbind at 1, M_bind at 1, lift at 1.
  destruct (py_int prefix) as [year|e]; [|done]. simpl.
  unfold mbind at 1, M_bind at 1. rewrite set_prop_with.
  set (pd' := <["year":=VInt year]> _).
  unfold mbind, M_bind. rewrite del_prop_with.
  case_bool_decide as Hk.
  - destruct Hk as ([? Hu] & [? Hcu] & [? Hcl] & [? Hco]). rewrite Hu.
    rewrite del_prop_with, lookup_delete_ne, Hcu by done.
    rewrite del_prop_with, !lookup_delete_ne, Hcl by done.
    rewrite del_prop_with, !lookup_delete_ne, Hco by done.
    done.
  - destruct (pd' !! "url") as [?|] eqn:Hu; [|done].
    rewrite del_prop_with, lookup_delete_ne by done.
    destruct (pd' !! "comment_url") as [?|] eqn:Hcu; [|done].
    rewrite del_prop_with, !lookup_delete_ne by done.
    destruct (pd' !! "close_url") as [?|] eqn:Hcl; [|done].
    rewrite del_prop_with, !lookup_delete_ne by done.
    destruct (pd' !! "comments") as [?|] eqn:Hco; [|done].
    exfalso. apply Hk. eauto.
Qed.

Lemma process_feature_Ok_inv si feature r :
  process_feature_result si feature = Ok r →
  ∃ fd pd comments first_comment pd',
    feature = VDict fd ∧ fd !! "properties" = Some (VDict pd)
    ∧ pd !! "comments" = Some comments ∧ getitem0 comments = Ok first_comment
    ∧ normalized_properties si pd first_comment = Ok pd'
    ∧ r = with_properties fd pd'.
Proof.
  unfold process_feature_result. intros Hr.
  assert (∃ fd pd comments first_comment,
     feature = VDict fd ∧ fd !! "properties" = Some (VDict pd)
     ∧ pd !! "comments" = Some comments ∧ getitem0 comments = Ok first_comment)
    as (fd & pd & comments & first_comment & -> & Hp & Hc & H0).
  { revert Hr. unfold process_feature, get_prop, the_feature, lift.
    unfold mbind, M_bind. simpl.
    destruct feature as [| | | | | |fd]; simpl; try done.
    destruct (fd !! "properties") as [[| | | | | |pd]|] eqn:Hp; simpl; try done.
    destruct (pd !! "comments") as [comments|] eqn:Hc; simpl; try done.
    destruct (getitem0 comments) as [first_comment|] eqn:H0; simpl; try done.
    intros _. eauto 10. }
  rewrite (with_properties_id _ _ Hp) in Hr.
  rewrite (process_feature_eval _ _ _ _ _ Hc H0) in Hr.
  destruct (normalized_properties si pd first_comment) as [pd'|] eqn:Hn; [|done].
  injection Hr as <-. exists fd, pd, comments, first_comment, pd'. done.
Qed.

Lemma updated_properties_frame pd user text tags year k :
  k ∉ touched → updated_properties pd user text tags year !! k = pd !! k.
Proof.
  unfold touched, updated_properties. rewrite !not_elem_of_cons.
  intros (? & ? & ? & ? & ? & ? & ? & ? & _).
  by rewrite !lookup_delete_ne, !lookup_insert_ne.
Qed.

Lemma updated_properties_set pd user text tags year :
  let pd' := updated_properties pd user text tags year in
  pd' !! "user" = Some user ∧ pd' !! "text" = Some text
  ∧ pd' !! "tags" = Some tags ∧ pd' !! "year" = Some (VInt year).
Proof.
  unfold updated_properties; cbv zeta.
  repeat split; rewrite !lookup_delete_ne by done.
  - rewrite !lookup_insert_ne by done. by rewrite lookup_insert_eq.
  - rewrite !lookup_insert_ne by done. by rewrite lookup_insert_eq.
  - rewrite !lookup_insert_ne by done. by rewrite lookup_insert_eq.
  - by rewrite lookup_insert_eq.
Qed.

Lemma updated_properties_deleted pd user text tags year :
  let pd' := updated_properties pd user text tags year in
  pd' !! "url" = None ∧ pd' !! "comment_url" = None
  ∧ pd' !! "close_url" = None ∧ pd' !! "comments" = None.
Proof.
  unfold updated_properties; cbv zeta.
  repeat split.
  - rewrite !lookup_delete_ne by done. by rewrite lookup_delete_eq.
  - rewrite !lookup_delete_ne by done. by rewrite lookup_delete_eq.
  - rewrite !lookup_delete_ne by done. by rewrite lookup_delete_eq.
  - by rewrite lookup_delete_eq.
Qed.

Lemma normalized_properties_Ok si pd first_comment pd' :
  normalized_properties si pd first_comment = Ok pd' →
  ∃ cd text date year,
    first_comment = VDict cd ∧ cd !! "text" = Some (VStr text) ∧ cd !! "date" = Some date
    ∧ (prefix ← slice_to_4 date; py_int prefix) = Ok year
    ∧ is_Some (pd !! "url") ∧ is_Some (pd !! "comment_url") ∧ is_Some (pd !! "close_url")
    ∧ pd' = updated_properties pd (default (VStr "anonymous") (cd !! "user")) (VStr text)
              (VStr (str_join " " (si (re_findall_hashtags text)))) year.
Proof.
  unfold normalized_properties.
  destruct first_comment as [| | | | | |cd]; try done. simpl.
  destruct (cd !! "text") as [text|] eqn:Ht; [|done]. simpl.
  destruct text as [| | | |text| |]; try done. simpl.
  destruct (cd !! "date") as [date|] eqn:Hd; [|done]. simpl.
  destruct (slice_to_4 date) as [prefix|] eqn:Hs; [|done]. simpl.
  destruct (py_int prefix) as [year|] eqn:Hy; [|done]. simpl.
  case_bool_decide as Hk; [|done]. intros [= <-].
  destruct Hk as (Hu & Hcu & Hcl & _).
  rewrite !lookup_insert_ne in Hu, Hcu, Hcl by done.
  exists cd, text, date, year. rewrite Hs. simpl. rewrite Hy. done.
Qed.

Lemma normalized_properties_intro si pd cd text date year :
  cd !! "text" = Some (VStr text) → cd !! "date" = Some (VStr date) →
  int_of_string (str_take 4 date) = Some year →
  is_Some (pd !! "url") → is_Some (pd !! "comment_url") → is_Some (pd !! "close_url") →
  is_Some (pd !! "comments") →
  normalized_properties si pd (VDict cd) =
  Ok (updated_properties pd (default (VStr "anonymous") (cd !! "user")) (VStr text)
        (VStr (str_join " " (si (re_findall_hashtags text)))) year).
Proof.
  intros Ht Hd Hy Hu Hcu Hcl Hco. unfold normalized_properties. simpl.
  rewrite Ht. simpl. rewrite Hd. simpl. rewrite Hy. simpl.
  rewrite bool_decide_eq_true_2; [done|].
  by rewrite !lookup_insert_ne.
Qed.

Lemma normalized_properties_comments si pd first_comment comments :
  is_Some (pd !! "comments") →
  normalized_properties si (<["comments" := comments]> pd) first_comment =
  normalized_properties si pd first_comment.
Proof.
  intros Hc. unfold normalized_properties.
  destruct (dict_get first_comment "user" (VStr "anonymous")) as [user|]; [|done]. simpl.
  destruct (getitem first_comment "text") as [text|]; [|done]. simpl.
  destruct (re_findall text) as [hashtags|]; [|done]. simpl.
  destruct (getitem first_comment "date") as [date|]; [|done]. simpl.
  destruct (slice_to_4 date) as [prefix|]; [|done]. simpl.
  destruct (py_int prefix) as [year|]; [|done]. simpl.
  rewrite !lookup_insert_ne by done. rewrite lookup_insert_eq.
  rewrite !lookup_insert_ne by done.
  destruct Hc as [c Hc]. rewrite Hc.
  case_bool_decide as H1; case_bool_decide as H2.
  - f_equal. apply map_eq. intros k.
    rewrite !lookup_delete, !lookup_insert. repeat case_decide; congruence.
  - exfalso. apply H2. destruct H1 as (? & ? & ? & _). eauto.
  - exfalso. apply H1. destruct H2 as (? & ? & ? & _). eauto.
  - done.
Qed.

Lemma process_feature_state si feature r σ' :
  process_feature si feature = (Ok r, σ') → σ' = r.
Proof.
  unfold process_feature. unfold mbind, M_bind, lift, the_feature.
  repeat match goal with
         | |- context [match ?m ?σ with _ => _ end] =>
             lazymatch type of σ with val => destruct (m σ) as [[?|?] ?] end
         | |- context [match ?r with Ok _ => _ | Raise _ => _ end] => destruct r
         end; congruence.
Qed.

Lemma process_feature_again si feature r :
  process_feature_result si feature = Ok r → process_feature si r = (Raise KeyError, r).
Proof.
  intros (fd & pd & ? & ? & pd' & -> & _ & _ & _ & Hn & ->)%process_feature_Ok_inv.
  apply normalized_properties_Ok in Hn as (? & ? & ? & ? & _ & _ & _ & _ & _ & _ & _ & ->).
  unfold process_feature. unfold mbind at 1, M_bind at 1. rewrite get_prop_with.
  unfold getitem.
  by rewrite (proj2 (proj2 (proj2 (updated_properties_deleted _ _ _ _ _)))).
Qed.

Lemma process_feature_geometry si feature r :
  process_feature_result si feature = Ok r →
  getitem r "geometry" = getitem feature "geometry".
Proof.
  intros (fd & pd & ? & ? & pd' & -> & _ & _ & _ & _ & ->)%process_feature_Ok_inv.
  unfold with_properties, getitem. by rewrite lookup_insert_ne.
Qed.

(** [process_feature] on any value: either the value has the shape of a
    feature with comments, or the call raises whatever the order of sets. *)
Lemma process_feature_cases feature :
  (∃ fd pd comments first_comment,
     feature = VDict fd ∧ fd !! "properties" = Some (VDict pd)
     ∧ pd !! "comments" = Some comments ∧ getitem0 comments = Ok first_comment
     ∧ ∀ si, process_feature_result si feature =
             (pd' ← normalized_properties si pd first_comment; Ok (with_properties fd pd')))
  ∨ (∃ e, ∀ si, process_feature_result si feature = Raise e).
Proof.
  destruct feature as [| | | | | |fd]; try (right; eexists; intros si; reflexivity).
  destruct (fd !! "properties") as [properties|] eqn:Hp.
  2:{ right. exists KeyError. intros si. unfold process_feature_result, process_feature, get_prop.
      unfold mbind, M_bind, the_feature, lift. simpl. by rewrite Hp. }
  destruct (getitem properties "comments") as [comments|e] eqn:Hc.
  2:{ right. exists e. intros si. unfold process_feature_result, process_feature, get_prop.
      unfold mbind, M_bind, the_feature, lift. simpl. rewrite Hp. simpl. by rewrite Hc. }
  destruct properties as [| | | | | |pd]; try done.
  simpl in Hc. destruct (pd !! "comments") as [c|] eqn:Hc'; [|done]. injection Hc as ->.
  destruct (getitem0 comments) as [first_comment|e] eqn:H0.
  2:{ right. exists e. intros si. unfold process_feature_result, process_feature, get_prop.
      unfold mbind, M_bind, the_feature, lift. simpl. rewrite Hp. simpl. rewrite Hc'.
      by rewrite H0. }
  left. exists fd, pd, comments, first_comment. repeat split; try done.
  intros si. unfold process_feature_result. rewrite (with_properties_id _ _ Hp).
  by apply (process_feature_eval _ _ _ comments).
Qed.

Lemma erase_tags_with_properties fd pd :
  erase_tags (with_properties fd pd) = with_properties fd (delete "tags" pd).
Proof.
  unfold erase_tags, with_properties. by rewrite lookup_insert_eq, insert_insert_eq.
Qed.

Lemma normalized_properties_erase si1 si2 pd first_comment :
  delete "tags" <$> normalized_properties si1 pd first_comment =
  delete "tags" <$> normalized_properties si2 pd first_comment.
Proof.
  unfold normalized_properties.
  destruct (dict_get first_comment "user" (VStr "anonymous")) as [user|]; [|done]. simpl.
  destruct (getitem first_comment "text") as [text|]; [|done]. simpl.
  destruct (re_findall text) as [hashtags|]; [|done]. simpl.
  destruct (getitem first_comment "date") as [date|]; [|done]. simpl.
  destruct (slice_to_4 date) as [prefix|]; [|done]. simpl.
  destruct (py_int prefix) as [year|]; [|done]. simpl.
  rewrite !lookup_insert_ne by done.
  case_bool_decide; [|done]. simpl. f_equal.
  apply map_eq. intros k.
  rewrite !lookup_delete, !lookup_insert. repeat case_decide; congruence.
Qed.

Lemma process_feature_erase si1 si2 feature :
  erase_tags <$> process_feature_result si1 feature =
  erase_tags <$> process_feature_result si2 feature.
Proof.
  destruct (process_feature_cases feature)
    as [(fd & pd & comments & first_comment & -> & _ & _ & _ & Heval)|[e He]].
  - rewrite !Heval. pose proof (normalized_properties_erase si1 si2 pd first_comment) as H.
    destruct (normalized_properties si1 pd first_comment) as [p1|e1],
             (normalized_properties si2 pd first_comment) as [p2|e2];
      unfold fmap, result_fmap, mbind, result_bind in *; try congruence.
    injection H as H. rewrite !erase_tags_with_properties. by rewrite H.
  - by rewrite !He.
Qed.

Lemma normalized_properties_ext si1 si2 pd first_comment :
  (∀ l, si1 l = si2 l) →
  normalized_properties si1 pd first_comment = normalized_properties si2 pd first_comment.
Proof.
  intros Hsi. unfold normalized_properties.
  destruct (dict_get first_comment "user" (VStr "anonymous")) as [user|]; [|done]. simpl.
  destruct (getitem first_comment "text") as [text|]; [|done]. simpl.
  destruct (re_findall text) as [hashtags|]; [|done]. simpl.
  by rewrite Hsi.
Qed.

Lemma process_feature_ext si1 si2 feature :
  (∀ l, si1 l = si2 l) →
  process_feature_result si1 feature = process_feature_result si2 feature.
Proof.
  intros Hsi. destruct (process_feature_cases feature)
    as [(fd & pd & comments & first_comment & -> & _ & _ & _ & Heval)|[e He]].
  - by rewrite !Heval, (normalized_properties_ext si1 si2).
  - by rewrite !He.
Qed.

Lemma feature_id_erase r : feature_id (erase_tags r) = feature_id r.
Proof.
  unfold erase_tags. destruct r as [| | | | | |fd]; try done.
  destruct (fd !! "properties") as [[| | | | | |pd]|] eqn:Hp; try done.
  unfold feature_id. simpl. rewrite lookup_insert_eq, Hp. simpl.
  by rewrite lookup_delete_ne.
Qed.

(** ** One cell and the task group *)

Section run_lemmas.
Context (W : World).

Lemma wanted_true feature :
  wanted W feature = Ok true →
  ∃ properties comments g,
    getitem feature "properties" = Ok properties
    ∧ getitem properties "comments" = Ok comments ∧ truthy comments = true
    ∧ getitem feature "geometry" = Ok g ∧ contains W g = true.
Proof.
  unfold wanted. intros H.
  destruct (getitem feature "properties") as [properties|]; [|done]. simpl in H.
  destruct (getitem properties "comments") as [comments|] eqn:Hc; [|done]. simpl in H.
  destruct (truthy comments) eqn:Ht; [|done].
  destruct (getitem feature "geometry") as [g|]; [|done]. simpl in H.
  exists properties, comments, g. by simplify_eq.
Qed.

Lemma cell_features_cons feature rest :
  cell_features W (feature :: rest) =
  (keep ← wanted W feature;
   if keep : bool then
     record ← process_feature_result (set_iter W) feature;
     records ← cell_features W rest;
     Ok (record :: records)
   else cell_features W rest).
Proof. reflexivity. Qed.

Lemma cell_features_within cell_result records :
  cell_features W cell_result = Ok records → Forall (within W) records.
Proof.
  revert records. induction cell_result as [|feature rest IH]; intros records.
  - intros [= <-]. constructor.
  - rewrite cell_features_cons.
    destruct (wanted W feature) as [[]|] eqn:Hw; simpl; [| |done].
    + destruct (process_feature_result (set_iter W) feature) as [record|] eqn:Hr; simpl; [|done].
      destruct (cell_features W rest) as [records'|]; simpl; [|done].
      intros [= <-]. constructor; [|by apply IH].
      apply wanted_true in Hw as (? & ? & g & _ & _ & _ & Hg & Hin).
      exists g. split; [|done]. by rewrite (process_feature_geometry _ _ _ Hr).
    + apply IH.
Qed.

Lemma cell_features_elem cell_result records feature :
  cell_features W cell_result = Ok records →
  feature ∈ cell_result → wanted W feature = Ok true →
  ∃ r, process_feature_result (set_iter W) feature = Ok r ∧ r ∈ records.
Proof.
  revert records. induction cell_result as [|f rest IH]; intros records Hcf Hin Hw.
  - by apply elem_of_nil in Hin.
  - rewrite cell_features_cons in Hcf.
    apply elem_of_cons in Hin as [<-|Hin].
    + rewrite Hw in Hcf. simpl in Hcf.
      destruct (process_feature_result (set_iter W) feature) as [record|]; [|done].
      simpl in Hcf. destruct (cell_features W rest); [|done].
      simpl in Hcf. injection Hcf as <-. exists record. split; [done|]. apply list_elem_of_here.
    + destruct (wanted W f) as [[]|]; simpl in Hcf; [| |done].
      * destruct (process_feature_result (set_iter W) f) as [record|]; [|done].
        simpl in Hcf. destruct (cell_features W rest) as [records'|]; [|done].
        simpl in Hcf. injection Hcf as <-.
        destruct (IH records') as (r & Hr & Hel); [done..|].
        exists r. split; [done|]. by apply list_elem_of_further.
      * by apply IH.
Qed.

Lemma cell_features_skip l1 feature l2 :
  wanted W feature = Ok false →
  cell_features W (l1 ++ feature :: l2) = cell_features W (l1 ++ l2).
Proof.
  intros Hw. induction l1 as [|f l1 IH]; simpl.
  - by rewrite Hw.
  - by rewrite IH.
Qed.

Lemma cell_features_raise l1 feature l2 e :
  wanted W feature = Ok true →
  process_feature_result (set_iter W) feature = Raise e →
  ∃ e', cell_features W (l1 ++ feature :: l2) = Raise e'.
Proof.
  intros Hw Hr. induction l1 as [|f l1 [e' IH]].
  - exists e. simpl. rewrite Hw. simpl. by rewrite Hr.
  - simpl. rewrite IH.
    destruct (wanted W f) as [[]|]; simpl; eauto.
    destruct (process_feature_result (set_iter W) f); simpl; eauto.
Qed.

Lemma run_tasks_app sched1 sched2 s :
  run_tasks W (sched1 ++ sched2) s = (s' ← run_tasks W sched1 s; run_tasks W sched2 s').
Proof.
  revert s. induction sched1 as [|pick sched1 IH]; intros s; [done|].
  simpl. destruct (step W pick s) as [s1|]; simpl; [|done]. apply IH.
Qed.

Lemma step_within pick s s' :
  step W pick s = Ok s' → Forall (within W) (features s) → Forall (within W) (features s').
Proof.
  unfold step. destruct (tasks s !! pick) as [c|]; [|by intros [= <-]].
  unfold process_cell.
  destruct (intersects W (cell_box c)); simpl.
  - destruct (get_notes W (cell_box c)) as [cell_result|]; simpl; [|done].
    destruct (Z.of_nat (length cell_result) =? API_LIMIT); simpl.
    + intros [= <-]; simpl. by rewrite app_nil_r.
    + destruct (cell_features W cell_result) as [records|] eqn:Hcf; simpl; [|done].
      intros [= <-] H; simpl. apply Forall_app. split; [done|].
      by eapply cell_features_within.
  - intros [= <-]; simpl. by rewrite app_nil_r.
Qed.

Lemma run_tasks_within sched s s' :
  run_tasks W sched s = Ok s' → Forall (within W) (features s) → Forall (within W) (features s').
Proof.
  revert s. induction sched as [|pick sched IH]; intros s; simpl.
  - by intros [= <-].
  - destruct (step W pick s) as [s1|] eqn:Hs; simpl; [|done].
    intros Hrun H. eapply IH; [done|]. by eapply step_within.
Qed.
End run_lemmas.

(** ** Sorting by identifier *)

Lemma insert_by_key_perm x l : insert_by_key x l ≡ₚ x :: l.
Proof.
  induction l as [|y l IH]; simpl; [done|].
  destruct (x.1 <=? y.1); [done|]. rewrite IH. apply Permutation_swap.
Qed.

Lemma sort_by_key_perm l : foldr insert_by_key [] l ≡ₚ l.
Proof.
  induction l as [|x l IH]; simpl; [done|].
  by rewrite insert_by_key_perm, IH.
Qed.

Lemma insert_by_key_sorted x l :
  StronglySorted key_le l → StronglySorted key_le (insert_by_key x l).
Proof.
  induction 1 as [|y l Hs IH Hy]; simpl.
  - repeat constructor.
  - destruct (Z.leb_spec x.1 y.1) as [Hle|Hgt].
    + constructor; [by constructor|]. constructor; [done|].
      eapply Forall_impl; [exact Hy|]. unfold key_le. intros; lia.
    + constructor; [done|].
      rewrite insert_by_key_perm. constructor; [|done]. unfold key_le. lia.
  Qed.

Lemma sort_by_key_sorted l : StronglySorted key_le (foldr insert_by_key [] l).
Proof.
  induction l as [|x l IH]; simpl; [constructor|]. by apply insert_by_key_sorted.
Qed.

Lemma with_keys_Ok l kl :
  with_keys l = Ok kl → kl = (λ f, (id_or_0 f, f)) <$> l.
Proof.
  revert kl. induction l as [|f l IH]; intros kl; simpl.
  - by intros [= <-].
  - unfold id_or_0. destruct (feature_id f) as [k|]; simpl; [|done].
    destruct (with_keys l) as [kl'|]; simpl; [|done].
    intros [= <-]. by rewrite (IH kl').
Qed.

Lemma with_keys_ids l kl f :
  with_keys l = Ok kl → f ∈ l → feature_id f = Ok (id_or_0 f).
Proof.
  revert kl. induction l as [|g l IH]; intros kl; simpl.
  - intros _ []%elem_of_nil.
  - destruct (feature_id g) as [k|] eqn:Hg; simpl; [|done].
    destruct (with_keys l) as [kl'|]; simpl; [|done].
    intros _ [->|Hf]%elem_of_cons.
    + unfold id_or_0. by rewrite Hg.
    + by eapply IH.
Qed.

Lemma snd_keyed (l : list val) : ((λ f, (id_or_0 f, f)) <$> l).*2 = l.
Proof. induction l; simpl; [done|]. by f_equal. Qed.

Lemma sorted_by_id_perm l out : sorted_by_id l = Ok out → out ≡ₚ l.
Proof.
  unfold sorted_by_id. destruct (with_keys l) as [kl|] eqn:Hk; simpl; [|done].
  intros [= <-]. rewrite sort_by_key_perm. apply with_keys_Ok in Hk as ->.
  by rewrite snd_keyed.
Qed.

(** ** The tree of tasks *)

Section harvest_lemmas.
Context (W : World).

Lemma harvest_deterministic cells r1 r2 :
  harvest W cells r1 → harvest W cells r2 → r1 = r2.
Proof.
  intros H1. revert r2.
  induction H1 as [|c cells started records below others Hc _ IHb _ IHo]; intros r2 H2.
  - by inversion H2.
  - inversion H2 as [|? ? started' records' below' others' Hc' Hb' Ho']; subst.
    rewrite Hc in Hc'. injection Hc' as <- <-.
    by rewrite (IHb _ Hb'), (IHo _ Ho').
Qed.

Lemma harvest_app cells1 cells2 r1 r2 :
  harvest W cells1 r1 → harvest W cells2 r2 → harvest W (cells1 ++ cells2) (r1 ++ r2).
Proof.
  induction 1 as [|c cells started records below others Hc Hb _ _ IHo]; intros H2; [done|].
  simpl. replace ((records ++ below ++ others) ++ r2) with (records ++ below ++ (others ++ r2))
    by (by rewrite !app_assoc).
  econstructor; eauto.
Qed.

Lemma harvest_app_inv cells1 cells2 r :
  harvest W (cells1 ++ cells2) r →
  ∃ r1 r2, harvest W cells1 r1 ∧ harvest W cells2 r2 ∧ r = r1 ++ r2.
Proof.
  revert r. induction cells1 as [|c cells1 IH]; intros r; simpl.
  - intros H. exists [], r. split; [constructor|done].
  - intros H. inversion H as [|? ? started records below others Hc Hb Ho]; subst.
    destruct (IH _ Ho) as (r1 & r2 & H1 & H2 & ->).
    exists (records ++ below ++ r1), r2. split; [by econstructor|].
    split; [done|]. by rewrite !app_assoc.
Qed.

(** A run that ends with no task left has run the whole tree, in some
    order. *)
Lemma run_tasks_harvest sched s s' :
  run_tasks W sched s = Ok s' → tasks s' = [] →
  ∃ r, harvest W (tasks s) r ∧ features s' ≡ₚ features s ++ r.
Proof.
  revert s. induction sched as [|pick sched IH]; intros s; simpl.
  - intros [= <-] ->. exists []. split; [constructor|]. by rewrite app_nil_r.
  - destruct (step W pick s) as [s1|] eqn:Hstep; simpl; [|done].
    intros Hrun Hend. destruct (IH _ Hrun Hend) as (r1 & Hh & Hp).
    unfold step in Hstep. destruct (tasks s !! pick) as [c|] eqn:Hpick.
    + destruct (process_cell W c) as [[started records]|] eqn:Hc; simpl in Hstep; [|done].
      injection Hstep as <-. simpl in *.
      rewrite delete_take_drop in Hh.
      apply harvest_app_inv in Hh as (r12 & rc & Hh12 & Hhc & ->).
      apply harvest_app_inv in Hh12 as (ra & rb & Hha & Hhb & ->).
      exists (ra ++ records ++ rc ++ rb). split.
      * rewrite <- (take_drop_middle _ _ _ Hpick).
        apply harvest_app; [done|]. by econstructor.
      * rewrite Hp. rewrite <- !app_assoc. apply Permutation_app_head.
        rewrite (Permutation_app_comm rc rb).
        rewrite !app_assoc. do 2 apply Permutation_app_tail.
        apply Permutation_app_comm.
    + injection Hstep as <-. eauto.
Qed.
End harvest_lemmas.

(** ** Coverage *)

Lemma in_box_b_true b x y : in_box_b b x y = true ↔ in_box b x y.
Proof.
  unfold in_box_b, in_box. rewrite !andb_true_iff, !Qle_bool_iff. tauto.
Qed.

Lemma Qlt_bool_true x y : Qlt_bool x y = true ↔ (x < y)%Q.
Proof.
  unfold Qlt_bool. rewrite negb_true_iff. split.
  - intros H. apply Qnot_le_lt. intros Hle. apply Qle_bool_iff in Hle. congruence.
  - intros H. destruct (Qle_bool y x) eqn:E; [|done].
    apply Qle_bool_iff in E. exfalso. by apply (Qlt_not_le _ _ H).
Qed.

Lemma rectangle_world_sound country dataset si :
  sound_country (rectangle_world country dataset si).
Proof.
  intros g x y Hg. unfold rectangle_world, bounds_box; simpl.
  unfold strictly_inside. rewrite Hg. rewrite !andb_true_iff, !Qlt_bool_true.
  intros (((Hx0 & Hx1) & Hy0) & Hy1). split.
  - unfold in_box; simpl. repeat split; by apply Qlt_le_weak.
  - intros b (? & ? & ? & ?). unfold overlaps.
    rewrite !andb_true_iff, !Qle_bool_iff. repeat split; lra.
Qed.

Lemma take_all_of {A} (l : list A) n : length (take n l) ≠ n → take n l = l.
Proof. rewrite length_take. intros H. apply take_ge. lia. Qed.

Lemma filter_replicate_true {A} (P : A → Prop) `{∀ x, Decision (P x)} n x :
  P x → filter P (replicate n x) = replicate n x.
Proof.
  intros Hx. induction n as [|n IH]; [done|].
  simpl. rewrite filter_cons_True by done. by rewrite IH.
Qed.

Lemma notes_in_full b x :
  in_bbox b x = true →
  notes_in (replicate (Z.to_nat API_LIMIT) x) b = Ok (replicate (Z.to_nat API_LIMIT) x).
Proof.
  intros Hx. unfold notes_in. rewrite filter_replicate_true by done.
  by rewrite take_replicate, Nat.min_id.
Qed.

Lemma bootstrap_cells_cover W min_lon min_lat max_lon max_lat x y :
  bounds W = (min_lon, min_lat, max_lon, max_lat) →
  (min_lon < max_lon)%Q → (min_lat < max_lat)%Q →
  in_box (box min_lon min_lat max_lon max_lat) x y →
  ∃ c, c ∈ bootstrap_cells W ∧ size c = INIT_CELL_SIZE ∧ in_box (cell_box c) x y.
Proof.
  intros HW Hlon Hlat (Hx0 & Hx1 & Hy0 & Hy1). simpl in *.
  destruct (step_covers min_lon max_lon x) as (i & Hi & Hi0 & Hi1); [done..|].
  destruct (step_covers min_lat max_lat y) as (j & Hj & Hj0 & Hj1); [done..|].
  eexists. split; [|split].
  - apply (elem_of_bootstrap_cells _ _ _ _ _ _ HW). exists i, j. eauto.
  - reflexivity.
  - unfold in_box, cell_box; simpl. auto.
Qed.

Section coverage.
Context (W : World) (dataset : list val).
Hypothesis api : ∀ b, get_notes W b = notes_in dataset b.
Hypothesis sound : sound_country W.

Lemma harvest_covers cells records feature x y :
  harvest W cells records →
  feature ∈ dataset → feature_point feature = Some (x, y) →
  wanted W feature = Ok true →
  (∃ c, c ∈ cells ∧ in_box (cell_box c) x y) →
  ∃ r, process_feature_result (set_iter W) feature = Ok r ∧ r ∈ records.
Proof.
  intros Hh Hin Hpt Hw. 
  destruct (wanted_true W _ Hw) as (properties & comments & g & _ & _ & _ & Hg & Hcontains).
  assert (Hpg : point_of_geometry g = Some (x, y)).
  { unfold feature_point in Hpt. by rewrite Hg in Hpt. }
  destruct (sound g x y Hpg Hcontains) as [_ Hint].
  induction Hh as [|c cells started records below others Hc _ IHb _ IHo].
  - intros (c & []%elem_of_nil & _).
  - intros (c0 & [->|Hc0]%elem_of_cons & Hbox).
    + unfold process_cell in Hc. rewrite (Hint _ Hbox), api in Hc. simpl in Hc.
      set (items := take (Z.to_nat API_LIMIT) _) in Hc.
      destruct (Z.eqb_spec (Z.of_nat (length items)) API_LIMIT) as [Hfull|Hless].
      * injection Hc as <- <-.
        destruct IHb as (r & Hr & Hel).
        { by apply split_cell_no_gaps. }
        exists r. split; [done|]. simpl. apply elem_of_app. by left.
      * destruct (cell_features W items) as [records'|] eqn:Hcf; [|done].
        simpl in Hc. injection Hc as <- <-.
        destruct (cell_features_elem W items records' feature Hcf) as (r & Hr & Hel); [|done|].
        { unfold items. rewrite take_all_of by (fold items; unfold API_LIMIT in *; lia).
          apply list_elem_of_filter. split; [|done].
          unfold in_bbox. rewrite Hpt. by apply in_box_b_true. }
        exists r. split; [done|]. apply elem_of_app. by left.
    + destruct IHo as (r & Hr & Hel); [by eauto|].
      exists r. split; [done|]. rewrite !elem_of_app. auto.
Qed.
End coverage.


(** ** Two runs *)

Section related_runs.
Context (W1 W2 : World) (φ : val → val).
Hypothesis data : same_data W1 W2.
Hypothesis related : ∀ feature,
  φ <$> process_feature_result (set_iter W1) feature =
  φ <$> process_feature_result (set_iter W2) feature.

Lemma wanted_same feature : wanted W1 feature = wanted W2 feature.
Proof.
  destruct data as (_ & Hc & _). unfold wanted.
  destruct (getitem feature "properties") as [properties|]; [|done]. simpl.
  destruct (getitem properties "comments") as [comments|]; [|done]. simpl.
  destruct (truthy comments); [|done].
  destruct (getitem feature "geometry") as [g|]; [|done]. simpl. by rewrite Hc.
Qed.

Lemma cell_features_related cell_result :
  (fmap φ : list val → list val) <$> cell_features W1 cell_result =
  (fmap φ : list val → list val) <$> cell_features W2 cell_result.
Proof.
  induction cell_result as [|feature rest IH]; [done|].
  rewrite !cell_features_cons, wanted_same.
  destruct (wanted W2 feature) as [[]|]; [|done..].
  pose proof (related feature) as Hf.
  destruct (process_feature_result (set_iter W1) feature) as [r1|e1],
           (process_feature_result (set_iter W2) feature) as [r2|e2],
           (cell_features W1 rest) as [rs1|e1'],
           (cell_features W2 rest) as [rs2|e2'];
    simpl in *; try congruence.
  injection Hf as Hf. injection IH as IH. f_equal. by f_equal.
Qed.

Lemma process_cell_related c started records1 :
  process_cell W1 c = Ok (started, records1) →
  ∃ records2, process_cell W2 c = Ok (started, records2) ∧ φ <$> records1 = φ <$> records2.
Proof.
  destruct data as (Hi & _ & _ & Hg). unfold process_cell.
  rewrite Hi, Hg. destruct (intersects W2 (cell_box c)); simpl; [|by intros [= <- <-]; eauto].
  destruct (get_notes W2 (cell_box c)) as [cell_result|]; [|done]. simpl.
  destruct (Z.of_nat (length cell_result) =? API_LIMIT); [by intros [= <- <-]; eauto|].
  pose proof (cell_features_related cell_result) as Hcf.
  destruct (cell_features W1 cell_result) as [rs1|], (cell_features W2 cell_result) as [rs2|];
    simpl in *; try congruence.
  intros [= <- <-]. injection Hcf as Hcf. eauto.
Qed.

Lemma harvest_related cells records1 :
  harvest W1 cells records1 →
  ∃ records2, harvest W2 cells records2 ∧ φ <$> records1 = φ <$> records2.
Proof.
  induction 1 as [|c cells started records below others Hc _ [below2 [Hb Eb]] _ [others2 [Ho Eo]]].
  - exists []. split; [constructor|done].
  - destruct (process_cell_related _ _ _ Hc) as (records2 & Hc2 & Er).
    exists (records2 ++ below2 ++ others2). split; [by econstructor|].
    by rewrite !fmap_app, Er, Eb, Eo.
Qed.

Lemma bootstrap_cells_same : bootstrap_cells W1 = bootstrap_cells W2.
Proof. destruct data as (_ & _ & Hb & _). unfold bootstrap_cells. by rewrite Hb. Qed.
End related_runs.

Lemma main_harvest W schedule collection :
  main W schedule = Saved collection →
  ∃ s records, harvest W (bootstrap_cells W) records ∧ features s ≡ₚ records
               ∧ sorted_by_id (features s) = Ok collection.
Proof.
  unfold main.
  destruct (run_tasks W schedule (mkRun (bootstrap_cells W) [])) as [s|] eqn:Hrun; [|done].
  destruct (tasks s) eqn:Hend; [|done].
  destruct (save_result (features s)) as [out|] eqn:Hsave; [|done].
  intros [= <-].
  destruct (run_tasks_harvest W _ _ _ Hrun Hend) as (records & Hh & Hperm). simpl in *.
  eauto.
Qed.

Lemma runs_related W1 W2 (φ : val → val) schedule1 schedule2 collection1 collection2 :
  same_data W1 W2 →
  (∀ feature, φ <$> process_feature_result (set_iter W1) feature =
              φ <$> process_feature_result (set_iter W2) feature) →
  main W1 schedule1 = Saved collection1 → main W2 schedule2 = Saved collection2 →
  φ <$> collection1 ≡ₚ φ <$> collection2.
Proof.
  intros Hdata Hφ (s1 & r1 & Hh1 & Hp1 & Hs1)%main_harvest (s2 & r2 & Hh2 & Hp2 & Hs2)%main_harvest.
  apply sorted_by_id_perm in Hs1, Hs2.
  destruct (harvest_related W1 W2 φ Hdata Hφ _ _ Hh1) as (r2' & Hh2' & Hr).
  rewrite <- (bootstrap_cells_same W1 W2 Hdata) in Hh2.
  rewrite (harvest_deterministic W2 _ _ _ Hh2 Hh2') in Hp2.
  by rewrite Hs1, Hp1, Hr, <- Hp2, <- Hs2.
Qed.

(** ** Sorted collections *)

Lemma sorted_eq_of_perm (l1 l2 : list val) :
  StronglySorted id_le l1 → StronglySorted id_le l2 → l1 ≡ₚ l2 →
  (∀ a b, a ∈ l1 → b ∈ l1 → id_or_0 a = id_or_0 b → a = b) →
  l1 = l2.
Proof.
  intros H1. revert l2. induction H1 as [|a l1 Hs1 IH Ha]; intros l2 H2 Hp Hid.
  - by apply Permutation_nil_l in Hp.
  - destruct H2 as [|b l2 Hs2 Hb].
    + by apply Permutation_nil_r in Hp.
    + assert (a = b) as <-.
      { assert (Hal2 : a ∈ b :: l2) by (rewrite <- Hp; apply list_elem_of_here).
        assert (Hbl1 : b ∈ a :: l1) by (rewrite Hp; apply list_elem_of_here).
        apply elem_of_cons in Hal2 as [?|Hal2]; [done|].
        apply elem_of_cons in Hbl1 as [?|Hbl1]; [done|].
        rewrite Forall_forall in Ha, Hb.
        symmetry. apply Hid; [by apply list_elem_of_further|apply list_elem_of_here|].
        specialize (Ha _ Hbl1). specialize (Hb _ Hal2). unfold id_le in *. lia. }
      f_equal. apply IH; [done|by eapply Permutation_cons_inv|].
      intros x y Hx Hy. apply Hid; by apply list_elem_of_further.
Qed.

Lemma keyed_sorted (l : list (Z * val)) :
  StronglySorted key_le l → Forall (λ p, p.1 = id_or_0 p.2) l →
  StronglySorted id_le (l.*2).
Proof.
  induction 1 as [|p l Hs IH Hp]; intros Hk; simpl; [constructor|].
  apply Forall_cons in Hk as [Hk1 Hk]. constructor; [by apply IH|].
  rewrite Forall_fmap. rewrite Forall_forall in Hp, Hk |- *.
  intros q Hq. unfold id_le, key_le in *. simpl.
  rewrite <- Hk1, <- (Hk q Hq). by apply Hp.
Qed.

Lemma sorted_by_id_sorted l out : sorted_by_id l = Ok out → StronglySorted id_le out.
Proof.
  unfold sorted_by_id. destruct (with_keys l) as [kl|] eqn:Hk; simpl; [|done].
  intros [= <-]. apply with_keys_Ok in Hk as ->.
  apply keyed_sorted; [apply sort_by_key_sorted|].
  rewrite sort_by_key_perm. by apply Forall_fmap, Forall_true.
Qed.

Lemma sorted_by_id_ids l out r :
  sorted_by_id l = Ok out → r ∈ out → feature_id r = Ok (id_or_0 r).
Proof.
  intros Hs Hr. pose proof (sorted_by_id_perm _ _ Hs) as Hp. rewrite Hp in Hr.
  unfold sorted_by_id in Hs. destruct (with_keys l) as [kl|] eqn:Hk; [|done].
  by eapply with_keys_ids.
Qed.

Lemma fmap_sorted (φ : val → val) l :
  (∀ r, r ∈ l → id_or_0 (φ r) = id_or_0 r) →
  StronglySorted id_le l → StronglySorted id_le (φ <$> l).
Proof.
  intros Hφ Hs. induction Hs as [|a l Hs IH Ha]; simpl; [constructor|].
  constructor.
  - apply IH. intros r Hr. apply Hφ. by apply list_elem_of_further.
  - rewrite Forall_fmap. rewrite Forall_forall in Ha |- *. intros b Hb.
    unfold id_le in *. simpl.
    rewrite (Hφ a) by apply list_elem_of_here.
    rewrite (Hφ b) by (by apply list_elem_of_further). by apply Ha.
Qed.

Lemma first_seen_valid : valid_set_iter first_seen.
Proof.
  intros l. unfold first_seen. split; [apply NoDup_remove_dups|].
  intros x. apply elem_of_remove_dups.
Qed.

Lemma last_seen_valid : valid_set_iter last_seen.
Proof.
  intros l. unfold last_seen.
  split; [rewrite reverse_Permutation; apply NoDup_remove_dups|].
  intros x. by rewrite elem_of_reverse, elem_of_remove_dups.
Qed.

(** ** The properties of the specification *)

(** *** The bootstrap grid *)

(** C6. The cells of the bootstrap, all of size [INIT_CELL_SIZE], cover the
    bounding box of the country (a box of positive width and height): every
    point of the box is in the box of a cell, also when the last row or
    column sticks out. For the bounds (0,0)-(8,8) the cells are (0,0,4),
    (0,4,4), (4,0,4) and (4,4,4), started in this order. *)
Theorem bootstrap_grid_covers :
  (∀ W min_lon min_lat max_lon max_lat x y,
     bounds W = (min_lon, min_lat, max_lon, max_lat) →
     (min_lon < max_lon)%Q → (min_lat < max_lat)%Q →
     in_box (box min_lon min_lat max_lon max_lat) x y →
     ∃ c, c ∈ bootstrap_cells W ∧ size c = INIT_CELL_SIZE ∧ in_box (cell_box c) x y)
  ∧ (∀ W c, c ∈ bootstrap_cells W → size c = INIT_CELL_SIZE)
  ∧ (∀ W, bounds W = (0, 0, 8, 8)%Q →
       bootstrap_cells W = [mkCell 0 0 4; mkCell 0 4 4; mkCell 4 0 4; mkCell 4 4 4]).
Proof.
  split; [|split].
  - intros W min_lon min_lat max_lon max_lat x y. apply bootstrap_cells_cover.
  - intros W c Hc. pose proof (elem_of_bootstrap_cells W) as Hel.
    destruct (bounds W) as [[[x0 y0] x1] y1].
    destruct (proj1 (Hel x0 y0 x1 y1 c eq_refl) Hc) as (i & j & _ & _ & ->). done.
  - intros W HW. unfold bootstrap_cells. rewrite HW. vm_compute. reflexivity.
Qed.

(** The corner (8,4) of the bounds (0,0)-(8,4) is in a cell, and the bounds
    (0,0)-(8,8) give four cells. *)
Lemma bootstrap_grid_covers_witness :
  (bounds two_cell_world = (0, 0, 8, 4)%Q ∧ (0 < 8)%Q ∧ (0 < 4)%Q
   ∧ in_box (box 0 0 8 4) 8 4
   ∧ ∃ c, c ∈ bootstrap_cells two_cell_world ∧ size c = INIT_CELL_SIZE
          ∧ in_box (cell_box c) 8 4)
  ∧ (bounds (rectangle_world (box 0 0 8 8) [] first_seen) = (0, 0, 8, 8)%Q
     ∧ bootstrap_cells (rectangle_world (box 0 0 8 8) [] first_seen) =
       [mkCell 0 0 4; mkCell 0 4 4; mkCell 4 0 4; mkCell 4 4 4]).
Proof.
  assert (Hbox : in_box (box 0 0 8 4) 8 4) by (unfold in_box; simpl; lra).
  split.
  - split; [reflexivity|]. split; [reflexivity|]. split; [reflexivity|]. split; [exact Hbox|].
    exact (proj1 bootstrap_grid_covers two_cell_world 0 0 8 4 8 4
             eq_refl eq_refl eq_refl Hbox)%Q.
  - split; [reflexivity|].
    exact (proj2 (proj2 bootstrap_grid_covers)
             (rectangle_world (box 0 0 8 8) [] first_seen) eq_refl).
Defined.

(** *** Subdivision *)

(** C2. A cell outside the country starts no task. A cell that is fetched
    starts tasks exactly when the fetch returns [API_LIMIT] = 10000 items;
    it then starts the four cells of [split_cell], of size [size / 2], at
    the offsets (0,0), (size/2,0), (0,size/2) and (size/2,size/2). Their
    boxes make up the box of the parent, and no point is strictly inside
    two of them; without their upper and right borders, they partition the
    parent. Below the limit no task is started. *)
Theorem process_cell_subdivides W c :
  (intersects W (cell_box c) = false → process_cell W c = Ok ([], []))
  ∧ (∀ cell_result,
       intersects W (cell_box c) = true → get_notes W (cell_box c) = Ok cell_result →
       ((∃ started records, process_cell W c = Ok (started, records) ∧ started ≠ [])
          ↔ Z.of_nat (length cell_result) = 10000)
       ∧ (Z.of_nat (length cell_result) = 10000 → process_cell W c = Ok (split_cell c, []))
       ∧ (Z.of_nat (length cell_result) < 10000 →
          ∀ started records, process_cell W c = Ok (started, records) → started = []))
  ∧ split_cell c =
      [ mkCell (lon c) (lat c) (size c / 2);
        mkCell (lon c + size c / 2) (lat c) (size c / 2);
        mkCell (lon c) (lat c + size c / 2) (size c / 2);
        mkCell (lon c + size c / 2) (lat c + size c / 2) (size c / 2) ]
  ∧ (∀ x y, in_box (cell_box c) x y ↔
            ∃ child, child ∈ split_cell c ∧ in_box (cell_box child) x y)
  ∧ (∀ i j ci cj x y,
       split_cell c !! i = Some ci → split_cell c !! j = Some cj → i ≠ j →
       ¬ (inside_box (cell_box ci) x y ∧ inside_box (cell_box cj) x y))
  ∧ (∀ x y,
       (in_half_open (cell_box c) x y ↔
        ∃ child, child ∈ split_cell c ∧ in_half_open (cell_box child) x y)
       ∧ (∀ i j ci cj,
            split_cell c !! i = Some ci → split_cell c !! j = Some cj →
            in_half_open (cell_box ci) x y → in_half_open (cell_box cj) x y → i = j)).
Proof.
  split; [|split; [|split; [|split; [|split]]]]; [| | | | |apply split_cell_partition].
  - intros Hout. unfold process_cell. by rewrite Hout.
  - intros cell_result Hin Hget. unfold process_cell. rewrite Hin, Hget. simpl.
    unfold API_LIMIT.
    destruct (Z.eqb_spec (Z.of_nat (length cell_result)) 10000) as [Heq|Hne].
    + split; [|split].
      * split; [done|]. intros _. exists (split_cell c), []. done.
      * done.
      * lia.
    + split; [|split].
      * split; [|done]. intros (started & records & Hp & Hs).
        destruct (cell_features W cell_result); by simplify_eq/=.
      * done.
      * intros _ started records Hp.
        destruct (cell_features W cell_result); by simplify_eq/=.
  - reflexivity.
  - apply split_cell_no_gaps.
  - apply split_cell_no_overlap.
Qed.

(** A cell with 10000 notes is split; a cell with two notes is not. *)
Lemma process_cell_subdivides_witness :
  (intersects full_world (cell_box (mkCell 0 0 4)) = true
   ∧ get_notes full_world (cell_box (mkCell 0 0 4)) = Ok full_notes
   ∧ Z.of_nat (length full_notes) = 10000
   ∧ process_cell full_world (mkCell 0 0 4) = Ok (split_cell (mkCell 0 0 4), []))
  ∧ (intersects edge_world (cell_box (mkCell 0 0 4)) = true
     ∧ get_notes edge_world (cell_box (mkCell 0 0 4)) =
         Ok [note 1 1 1 [comment "inside"]; note 2 4 4 [comment "on the border"]]
     ∧ Z.of_nat 2 < 10000
     ∧ ∀ started records,
         process_cell edge_world (mkCell 0 0 4) = Ok (started, records) → started = []).
Proof.
  assert (Hin : intersects full_world (cell_box (mkCell 0 0 4)) = true) by reflexivity.
  assert (Hget : get_notes full_world (cell_box (mkCell 0 0 4)) = Ok full_notes)
    by (apply notes_in_full; vm_compute; reflexivity).
  assert (Hlen : Z.of_nat (length full_notes) = 10000)
    by (unfold full_notes; rewrite length_replicate; reflexivity).
  assert (Hin' : intersects edge_world (cell_box (mkCell 0 0 4)) = true) by reflexivity.
  assert (Hget' : get_notes edge_world (cell_box (mkCell 0 0 4)) =
                  Ok [note 1 1 1 [comment "inside"]; note 2 4 4 [comment "on the border"]])
    by (vm_compute; reflexivity).
  assert (Hlen' : Z.of_nat 2 < 10000) by reflexivity.
  split.
  - split; [exact Hin|]. split; [exact Hget|]. split; [exact Hlen|].
    exact (proj1 (proj2 (proj1 (proj2 (process_cell_subdivides full_world (mkCell 0 0 4)))
                          full_notes Hin Hget)) Hlen).
  - split; [exact Hin'|]. split; [exact Hget'|]. split; [exact Hlen'|].
    exact (proj2 (proj2 (proj1 (proj2 (process_cell_subdivides edge_world (mkCell 0 0 4)))
                          _ Hin' Hget')) Hlen').
Defined.

(** *** Containment *)

(** C3. Every append to [features] keeps all its records within the
    country, and so every record of the collection that is saved has a
    geometry that the country contains. *)
Theorem output_within_country W :
  (∀ pick s s',
     step W pick s = Ok s' → Forall (within W) (features s) → Forall (within W) (features s'))
  ∧ (∀ schedule collection,
       main W schedule = Saved collection → Forall (within W) collection).
Proof.
  split; [apply step_within|].
  intros schedule collection. unfold main.
  destruct (run_tasks W schedule (mkRun (bootstrap_cells W) [])) as [s|] eqn:Hrun; [|done].
  destruct (tasks s); [|done].
  destruct (save_result (features s)) as [out|] eqn:Hsave; [|done].
  intros [= <-]. unfold save_result in Hsave. apply sorted_by_id_perm in Hsave.
  rewrite Hsave. eapply run_tasks_within; [done|]. constructor.
Qed.

(** Of a note inside the country and a note on its border, one record is
    saved. *)
Lemma output_within_country_witness :
  main edge_world [0%nat] = Saved [record 1 1 1 "inside" ""]
  ∧ Forall (within edge_world) [record 1 1 1 "inside" ""].
Proof.
  assert (H : main edge_world [0%nat] = Saved [record 1 1 1 "inside" ""])
    by (vm_compute; reflexivity).
  split; [exact H|].
  exact (proj2 (output_within_country edge_world) [0%nat] _ H).
Defined.

(** *** Items without comments *)

(** C9. An item of a fetch below the limit whose list of comments is empty
    is filtered out before [process_feature]: no error comes of it, and the
    cell returns what it returns for the other items alone. *)
Theorem no_comments_no_record W c l1 feature l2 properties :
  intersects W (cell_box c) = true →
  get_notes W (cell_box c) = Ok (l1 ++ feature :: l2) →
  Z.of_nat (length (l1 ++ feature :: l2)) ≠ API_LIMIT →
  getitem feature "properties" = Ok properties →
  getitem properties "comments" = Ok (VList []) →
  wanted W feature = Ok false
  ∧ cell_features W (l1 ++ feature :: l2) = cell_features W (l1 ++ l2)
  ∧ process_cell W c = (records ← cell_features W (l1 ++ l2); Ok ([], records)).
Proof.
  intros Hin Hget Hlen Hp Hc.
  assert (Hw : wanted W feature = Ok false).
  { unfold wanted. rewrite Hp. simpl. by rewrite Hc. }
  split; [done|]. split; [by apply cell_features_skip|].
  unfold process_cell. rewrite Hin, Hget. simpl.
  apply Z.eqb_neq in Hlen. rewrite Hlen. by rewrite cell_features_skip.
Qed.

Lemma no_comments_no_record_witness :
  intersects silent_world (cell_box (mkCell 0 0 4)) = true
  ∧ get_notes silent_world (cell_box (mkCell 0 0 4)) =
      Ok ([note 1 1 1 [comment "a"]] ++ silent_note :: [note 3 3 3 [comment "b"]])
  ∧ Z.of_nat (length ([note 1 1 1 [comment "a"]] ++ silent_note :: [note 3 3 3 [comment "b"]]))
      ≠ API_LIMIT
  ∧ getitem silent_note "properties" = Ok (VDict (note_properties 2 []))
  ∧ getitem (VDict (note_properties 2 [])) "comments" = Ok (VList [])
  ∧ process_cell silent_world (mkCell 0 0 4) =
      (records ← cell_features silent_world
                   ([note 1 1 1 [comment "a"]] ++ [note 3 3 3 [comment "b"]]);
       Ok ([], records)).
Proof.
  assert (H1 : intersects silent_world (cell_box (mkCell 0 0 4)) = true) by reflexivity.
  assert (H2 : get_notes silent_world (cell_box (mkCell 0 0 4)) =
      Ok ([note 1 1 1 [comment "a"]] ++ silent_note :: [note 3 3 3 [comment "b"]]))
    by (vm_compute; reflexivity).
  assert (H3 : Z.of_nat (length ([note 1 1 1 [comment "a"]] ++ silent_note
                                   :: [note 3 3 3 [comment "b"]])) ≠ API_LIMIT)
    by (vm_compute; discriminate).
  assert (H4 : getitem silent_note "properties" = Ok (VDict (note_properties 2 [])))
    by reflexivity.
  assert (H5 : getitem (VDict (note_properties 2 [])) "comments" = Ok (VList []))
    by reflexivity.
  split; [exact H1|]. split; [exact H2|]. split; [exact H3|]. split; [exact H4|].
  split; [exact H5|].
  exact (proj2 (proj2 (no_comments_no_record silent_world (mkCell 0 0 4) _ _ _ _
                         H1 H2 H3 H4 H5))).
Defined.

(** *** Failures *)

(** C8. A fetch that raises, or a [process_feature] that raises, makes the
    task raise; a task that raises ends [main] with that exception, whatever
    had been collected and whatever was still to run; and a collection is
    saved only when every task has returned. *)
Theorem failure_writes_no_file W :
  (∀ c e, intersects W (cell_box c) = true → get_notes W (cell_box c) = Raise e →
     process_cell W c = Raise e)
  ∧ (∀ c l1 feature l2 e,
       intersects W (cell_box c) = true →
       get_notes W (cell_box c) = Ok (l1 ++ feature :: l2) →
       Z.of_nat (length (l1 ++ feature :: l2)) ≠ API_LIMIT →
       wanted W feature = Ok true →
       process_feature_result (set_iter W) feature = Raise e →
       ∃ e', process_cell W c = Raise e')
  ∧ (∀ before pick after s c e,
       run_tasks W before (mkRun (bootstrap_cells W) []) = Ok s →
       tasks s !! pick = Some c → process_cell W c = Raise e →
       main W (before ++ pick :: after) = Failed e)
  ∧ (∀ schedule collection,
       main W schedule = Saved collection →
       ∃ s, run_tasks W schedule (mkRun (bootstrap_cells W) []) = Ok s
            ∧ tasks s = [] ∧ save_result (features s) = Ok collection).
Proof.
  split; [|split; [|split]].
  - intros c e Hin Hget. unfold process_cell. by rewrite Hin, Hget.
  - intros c l1 feature l2 e Hin Hget Hlen Hw Hr.
    unfold process_cell. rewrite Hin, Hget. simpl.
    apply Z.eqb_neq in Hlen. rewrite Hlen.
    destruct (cell_features_raise W l1 feature l2 e Hw Hr) as [e' ->]. eauto.
  - intros before pick after s c e Hrun Hpick Hc. unfold main.
    rewrite run_tasks_app, Hrun. simpl. unfold step. rewrite Hpick, Hc. done.
  - intros schedule collection. unfold main.
    destruct (run_tasks W schedule (mkRun (bootstrap_cells W) [])) as [s|]; [|done].
    destruct (tasks s) eqn:Ht; [|done].
    destruct (save_result (features s)) eqn:Hs; [|done].
    intros [= <-]. eauto.
Qed.

(** The API is down: the only task raises, and so does [main]. A date
    without a year: the task raises. *)
Lemma failure_writes_no_file_witness :
  (intersects offline_world (cell_box (mkCell 0 0 4)) = true
   ∧ get_notes offline_world (cell_box (mkCell 0 0 4)) = Raise HTTPError
   ∧ process_cell offline_world (mkCell 0 0 4) = Raise HTTPError
   ∧ main offline_world ([] ++ 0%nat :: [0%nat; 1%nat]) = Failed HTTPError)
  ∧ (intersects undated_world (cell_box (mkCell 0 0 4)) = true
     ∧ get_notes undated_world (cell_box (mkCell 0 0 4)) = Ok ([] ++ undated_note :: [])
     ∧ wanted undated_world undated_note = Ok true
     ∧ process_feature_result (set_iter undated_world) undated_note = Raise ValueError
     ∧ ∃ e', process_cell undated_world (mkCell 0 0 4) = Raise e').
Proof.
  assert (H1 : intersects offline_world (cell_box (mkCell 0 0 4)) = true) by reflexivity.
  assert (H2 : get_notes offline_world (cell_box (mkCell 0 0 4)) = Raise HTTPError)
    by reflexivity.
  pose proof (proj1 (failure_writes_no_file offline_world) _ _ H1 H2) as H3.
  assert (H4 : intersects undated_world (cell_box (mkCell 0 0 4)) = true) by reflexivity.
  assert (H5 : get_notes undated_world (cell_box (mkCell 0 0 4)) = Ok ([] ++ undated_note :: []))
    by (vm_compute; reflexivity).
  assert (H6 : Z.of_nat (length ([] ++ undated_note :: [])) ≠ API_LIMIT)
    by (vm_compute; discriminate).
  assert (H7 : wanted undated_world undated_note = Ok true) by (vm_compute; reflexivity).
  assert (H8 : process_feature_result (set_iter undated_world) undated_note = Raise ValueError)
    by (vm_compute; reflexivity).
  split.
  - split; [exact H1|]. split; [exact H2|]. split; [exact H3|].
    apply (proj1 (proj2 (proj2 (failure_writes_no_file offline_world)))
             [] 0%nat [0%nat; 1%nat] (mkRun (bootstrap_cells offline_world) []) (mkCell 0 0 4)).
    + reflexivity.
    + vm_compute. reflexivity.
    + exact H3.
  - split; [exact H4|]. split; [exact H5|]. split; [exact H7|]. split; [exact H8|].
    exact (proj1 (proj2 (failure_writes_no_file undated_world)) _ _ _ _ _ H4 H5 H6 H7 H8).
Defined.

(** *** Normalization *)

(** C7. For an item with a first comment, a record that [process_feature]
    returns has the author of the first comment as [user], or "anonymous"
    when the comment has none, the text of the first comment as [text], and
    as [year] the integer that [int] reads in the first four characters of
    its date. When [int] reads no integer there, [process_feature] raises
    ([ValueError], when the text is a string) and there is no record. The
    comments after the first do not matter. There is a record when the
    first comment has a string as text and a date that starts with a year,
    and the item has its three URLs. *)
Theorem fields_of_first_comment si fd pd first_comment rest :
  fd !! "properties" = Some (VDict pd) →
  pd !! "comments" = Some (VList (first_comment :: rest)) →
  (∀ r, process_feature_result si (VDict fd) = Ok r →
     ∃ cd pd' text date year,
       first_comment = VDict cd ∧ r = with_properties fd pd'
       ∧ pd' !! "user" = Some (default (VStr "anonymous") (cd !! "user"))
       ∧ cd !! "text" = Some text ∧ pd' !! "text" = Some text
       ∧ cd !! "date" = Some date
       ∧ (prefix ← slice_to_4 date; py_int prefix) = Ok year
       ∧ (∀ d, date = VStr d → int_of_string (str_take 4 d) = Some year)
       ∧ pd' !! "year" = Some (VInt year))
  ∧ (∀ d, getitem first_comment "date" = Ok (VStr d) →
       int_of_string (str_take 4 d) = None →
       (∃ e, process_feature_result si (VDict fd) = Raise e)
       ∧ (∀ t, getitem first_comment "text" = Ok (VStr t) →
            process_feature_result si (VDict fd) = Raise ValueError))
  ∧ (∀ rest',
       process_feature_result si
         (with_properties fd (<["comments" := VList (first_comment :: rest')]> pd)) =
       process_feature_result si (VDict fd))
  ∧ (∀ cd text d year,
       first_comment = VDict cd →
       cd !! "text" = Some (VStr text) → cd !! "date" = Some (VStr d) →
       int_of_string (str_take 4 d) = Some year →
       is_Some (pd !! "url") → is_Some (pd !! "comment_url") → is_Some (pd !! "close_url") →
       ∃ r, process_feature_result si (VDict fd) = Ok r).
Proof.
  intros Hp Hc.
  assert (Heval : process_feature_result si (VDict fd) =
                  (pd' ← normalized_properties si pd first_comment; Ok (with_properties fd pd'))).
  { unfold process_feature_result. rewrite (with_properties_id _ _ Hp).
    by apply (process_feature_eval _ _ _ (VList (first_comment :: rest))). }
  split; [|split; [|split]]; cycle 3.
  { intros cd text d year -> Ht Hd Hy Hu Hcu Hcl. rewrite Heval.
    rewrite (normalized_properties_intro si pd cd text d year) by eauto. simpl. eauto. }
  - intros r. rewrite Heval.
    destruct (normalized_properties si pd first_comment) as [pd'|] eqn:Hn; [|done].
    intros [= <-].
    apply normalized_properties_Ok in Hn
      as (cd & text & date & year & -> & Ht & Hd & Hy & _ & _ & _ & ->).
    destruct (updated_properties_set pd (default (VStr "anonymous") (cd !! "user")) (VStr text)
                (VStr (str_join " " (si (re_findall_hashtags text)))) year)
      as (Hu' & Ht' & _ & Hy').
    eexists cd, _, (VStr text), date, year.
    repeat split; try done.
    intros d ->. simpl in Hy. by destruct (int_of_string (str_take 4 d)); simplify_eq/=.
  - intros d Hd Hnone.
    assert (Hraise : ∀ pd', normalized_properties si pd first_comment ≠ Ok pd').
    { intros pd' (cd & text & date & year & -> & _ & Hd' & Hy & _)%normalized_properties_Ok.
      simpl in Hd. rewrite Hd' in Hd. injection Hd as ->. simpl in Hy.
      by rewrite Hnone in Hy. }
    split.
    + rewrite Heval. destruct (normalized_properties si pd first_comment); simpl; [|eauto].
      by edestruct Hraise.
    + intros t Ht. rewrite Heval. unfold normalized_properties.
      destruct first_comment as [| | | | | |cd]; try done.
      assert (Ht' : cd !! "text" = Some (VStr t))
        by (simpl in Ht; destruct (cd !! "text"); congruence).
      assert (Hd' : cd !! "date" = Some (VStr d))
        by (simpl in Hd; destruct (cd !! "date"); congruence).
      simpl. rewrite Ht'. simpl. rewrite Hd'. simpl. by rewrite Hnone.
  - intros rest'. rewrite Heval. unfold process_feature_result.
    rewrite (process_feature_eval _ _ _ (VList (first_comment :: rest')) first_comment);
      [|by rewrite lookup_insert_eq|done].
    by rewrite normalized_properties_comments.
Qed.

Lemma fields_of_first_comment_witness :
  note_dict 7 1 2 [comment "a #b"; comment "later"] !! "properties"
    = Some (VDict (note_properties 7 [comment "a #b"; comment "later"]))
  ∧ note_properties 7 [comment "a #b"; comment "later"] !! "comments"
    = Some (VList (comment "a #b" :: [comment "later"]))
  ∧ process_feature_result first_seen (note 7 1 2 [comment "a #b"; comment "later"])
    = Ok (record 7 1 2 "a #b" "#b")
  ∧ (∃ cd pd' text date year,
       comment "a #b" = VDict cd
       ∧ record 7 1 2 "a #b" "#b"
         = with_properties (note_dict 7 1 2 [comment "a #b"; comment "later"]) pd'
       ∧ pd' !! "user" = Some (default (VStr "anonymous") (cd !! "user"))
       ∧ cd !! "text" = Some text ∧ pd' !! "text" = Some text
       ∧ cd !! "date" = Some date
       ∧ (prefix ← slice_to_4 date; py_int prefix) = Ok year
       ∧ (∀ d, date = VStr d → int_of_string (str_take 4 d) = Some year)
       ∧ pd' !! "year" = Some (VInt year))
  ∧ process_feature_result first_seen
      (with_properties (note_dict 7 1 2 [comment "a #b"; comment "later"])
         (<["comments" := VList (comment "a #b" :: [])]>
            (note_properties 7 [comment "a #b"; comment "later"])))
    = process_feature_result first_seen (note 7 1 2 [comment "a #b"; comment "later"]).
Proof.
  assert (H1 : note_dict 7 1 2 [comment "a #b"; comment "later"] !! "properties"
               = Some (VDict (note_properties 7 [comment "a #b"; comment "later"])))
    by reflexivity.
  assert (H2 : note_properties 7 [comment "a #b"; comment "later"] !! "comments"
               = Some (VList (comment "a #b" :: [comment "later"])))
    by reflexivity.
  assert (H3 : process_feature_result first_seen (note 7 1 2 [comment "a #b"; comment "later"])
               = Ok (record 7 1 2 "a #b" "#b"))
    by (vm_compute; reflexivity).
  split; [exact H1|]. split; [exact H2|]. split; [exact H3|].
  split.
  - exact (proj1 (fields_of_first_comment first_seen _ _ _ _ H1 H2) _ H3).
  - exact (proj1 (proj2 (proj2 (fields_of_first_comment first_seen _ _ _ _ H1 H2))) []).
Defined.

(** C5, as stated, fails: on the record that a first call returned, a
    second call raises [KeyError]. *)
Lemma normalizing_twice_raises :
  process_feature_result first_seen (note 7 1 2 [comment "missing #bench"])
    = Ok (record 7 1 2 "missing #bench" "#bench")
  ∧ process_feature_result first_seen (record 7 1 2 "missing #bench" "#bench")
    = Raise KeyError.
Proof. split; vm_compute; reflexivity. Qed.

(** C5, amended. Whenever [process_feature] returns, a second call on what
    it returned raises [KeyError] and changes nothing: the comments are no
    longer there. This holds of the value and of the object in the store. *)
Theorem process_feature_not_twice si :
  (∀ feature r,
     process_feature_result si feature = Ok r →
     process_feature si r = (Raise KeyError, r))
  ∧ (∀ (feature : loc) h r h',
       call_process_feature si feature h = Some (Ok r, h') →
       r = feature ∧ call_process_feature si r h' = Some (Raise KeyError, h')).
Proof.
  split; [apply process_feature_again|].
  intros feature h r h'. unfold call_process_feature.
  destruct (h !! feature) as [σ|] eqn:Hσ; [|done]. simpl.
  destruct (process_feature si σ) as [[r0|e] σ'] eqn:Hp; [|done].
  intros [= <- <-]. split; [done|].
  rewrite lookup_insert_eq. simpl.
  pose proof (process_feature_state _ _ _ _ Hp) as ->.
  rewrite (process_feature_again si σ r0) by (unfold process_feature_result; by rewrite Hp).
  by rewrite insert_insert_eq.
Qed.

Lemma process_feature_not_twice_witness :
  process_feature_result first_seen (note 7 1 2 [comment "missing #bench"])
    = Ok (record 7 1 2 "missing #bench" "#bench")
  ∧ process_feature first_seen (record 7 1 2 "missing #bench" "#bench")
    = (Raise KeyError, record 7 1 2 "missing #bench" "#bench").
Proof.
  assert (H : process_feature_result first_seen (note 7 1 2 [comment "missing #bench"])
              = Ok (record 7 1 2 "missing #bench" "#bench"))
    by (vm_compute; reflexivity).
  split; [exact H|].
  exact (proj1 (process_feature_not_twice first_seen) _ _ H).
Defined.

(** C10, as stated, fails: the first comment has a text and a date, the
    date does not start with a year. The call raises [ValueError] after it
    has set [user], [text] and [tags]: there is no [year], and [url] is
    still there. A call also raises when [url] is missing ([KeyError], after
    the four properties were set) and when the text is not a string
    ([TypeError], after [user] and [text] were set). *)
Lemma bad_date_half_normalized :
  (call_process_feature first_seen 1%positive {[1%positive := undated_note]}
   = Some (Raise ValueError,
           {[1%positive :=
               with_properties (note_dict 7 1 2 [VDict (comment_dict "a #b" "soon")])
                 (<["tags" := VStr "#b"]> (<["text" := VStr "a #b"]> (<["user" := VStr "FredB"]>
                    (note_properties 7 [VDict (comment_dict "a #b" "soon")]))))]}))
  ∧ (call_process_feature first_seen 1%positive {[1%positive := note_without_url]}
     = Some (Raise KeyError,
             {[1%positive :=
                 with_properties (note_dict 7 1 2 [comment "a #b"])
                   (<["year" := VInt 2013]> (<["tags" := VStr "#b"]>
                      (<["text" := VStr "a #b"]> (<["user" := VStr "FredB"]>
                         (delete "url" (note_properties 7 [comment "a #b"]))))))]}))
  ∧ (call_process_feature first_seen 1%positive {[1%positive := note_with_number_text]}
     = Some (Raise TypeError,
             {[1%positive :=
                 with_properties
                   (note_dict 7 1 2
                      [VDict (<["text" := VInt 5]> (comment_dict "" "2013-04-24 08:07:02 UTC"))])
                   (<["text" := VInt 5]> (<["user" := VStr "FredB"]>
                      (note_properties 7
                         [VDict (<["text" := VInt 5]>
                                   (comment_dict "" "2013-04-24 08:07:02 UTC"))])))]})).
Proof. repeat split; vm_compute; reflexivity. Qed.

(** C10, amended. On a feature whose first comment is a dict with a string
    as text and a string as date that starts with a year, and whose
    properties have [url], [comment_url] and [close_url], the call returns
    the reference it was given and changes the store at that object only:
    its properties have [user], [text], [tags] and [year] set, have lost
    [url], [comment_url], [close_url] and [comments], and are as before on
    every other key ([id] among them); the other keys of the feature
    (['geometry']) are as before. *)
Theorem process_feature_in_place si (feature : loc) (h : store) fd pd cd rest text date year :
  h !! feature = Some (VDict fd) →
  fd !! "properties" = Some (VDict pd) →
  pd !! "comments" = Some (VList (VDict cd :: rest)) →
  cd !! "text" = Some (VStr text) → cd !! "date" = Some (VStr date) →
  int_of_string (str_take 4 date) = Some year →
  is_Some (pd !! "url") → is_Some (pd !! "comment_url") → is_Some (pd !! "close_url") →
  ∃ pd',
    call_process_feature si feature h =
      Some (Ok feature, <[feature := VDict (<["properties" := VDict pd']> fd)]> h)
    ∧ pd' !! "user" = Some (default (VStr "anonymous") (cd !! "user"))
    ∧ pd' !! "text" = Some (VStr text)
    ∧ pd' !! "tags" = Some (VStr (str_join " " (si (re_findall_hashtags text))))
    ∧ pd' !! "year" = Some (VInt year)
    ∧ pd' !! "url" = None ∧ pd' !! "comment_url" = None
    ∧ pd' !! "close_url" = None ∧ pd' !! "comments" = None
    ∧ (∀ k, k ∉ touched → pd' !! k = pd !! k)
    ∧ pd' !! "id" = pd !! "id".
Proof.
  intros Hf Hp Hc Ht Hd Hy Hu Hcu Hcl.
  set (pd' := updated_properties pd (default (VStr "anonymous") (cd !! "user")) (VStr text)
                (VStr (str_join " " (si (re_findall_hashtags text)))) year).
  exists pd'. split; [|split_and!].
  - unfold call_process_feature. rewrite Hf. simpl.
    destruct (process_feature si (VDict fd)) as [r σ'] eqn:Hpf.
    assert (Hr : r = Ok (with_properties fd pd')).
    { change r with (r, σ').1. rewrite <- Hpf. rewrite (with_properties_id _ _ Hp).
      rewrite (process_feature_eval _ _ _ _ (VDict cd) Hc eq_refl).
      by rewrite (normalized_properties_intro si pd cd text date year). }
    subst r. by rewrite (process_feature_state _ _ _ _ Hpf).
  - apply updated_properties_set.
  - apply updated_properties_set.
  - apply updated_properties_set.
  - apply updated_properties_set.
  - apply updated_properties_deleted.
  - apply updated_properties_deleted.
  - apply updated_properties_deleted.
  - apply updated_properties_deleted.
  - intros k. apply updated_properties_frame.
  - apply updated_properties_frame. unfold touched.
    rewrite !not_elem_of_cons. repeat split; try done. apply not_elem_of_nil.
Qed.

Lemma process_feature_in_place_witness :
  ({[1%positive := note 7 1 2 [comment "a #b"]]} : store) !! 1%positive
    = Some (VDict (note_dict 7 1 2 [comment "a #b"]))
  ∧ note_dict 7 1 2 [comment "a #b"] !! "properties"
    = Some (VDict (note_properties 7 [comment "a #b"]))
  ∧ note_properties 7 [comment "a #b"] !! "comments"
    = Some (VList (VDict (comment_dict "a #b" "2013-04-24 08:07:02 UTC") :: []))
  ∧ comment_dict "a #b" "2013-04-24 08:07:02 UTC" !! "text" = Some (VStr "a #b")
  ∧ comment_dict "a #b" "2013-04-24 08:07:02 UTC" !! "date"
    = Some (VStr "2013-04-24 08:07:02 UTC")
  ∧ int_of_string (str_take 4 "2013-04-24 08:07:02 UTC") = Some 2013
  ∧ ∃ pd',
      call_process_feature first_seen 1%positive {[1%positive := note 7 1 2 [comment "a #b"]]}
      = Some (Ok 1%positive,
              <[1%positive := VDict (<["properties" := VDict pd']>
                                       (note_dict 7 1 2 [comment "a #b"]))]>
                {[1%positive := note 7 1 2 [comment "a #b"]]})
      ∧ pd' !! "tags" = Some (VStr (str_join " " (first_seen (re_findall_hashtags "a #b"))))
      ∧ pd' !! "id" = note_properties 7 [comment "a #b"] !! "id".
Proof.
  assert (H1 : ({[1%positive := note 7 1 2 [comment "a #b"]]} : store) !! 1%positive
               = Some (VDict (note_dict 7 1 2 [comment "a #b"]))) by reflexivity.
  assert (H2 : note_dict 7 1 2 [comment "a #b"] !! "properties"
               = Some (VDict (note_properties 7 [comment "a #b"]))) by reflexivity.
  assert (H3 : note_properties 7 [comment "a #b"] !! "comments"
               = Some (VList (VDict (comment_dict "a #b" "2013-04-24 08:07:02 UTC") :: [])))
    by reflexivity.
  assert (H4 : comment_dict "a #b" "2013-04-24 08:07:02 UTC" !! "text" = Some (VStr "a #b"))
    by reflexivity.
  assert (H5 : comment_dict "a #b" "2013-04-24 08:07:02 UTC" !! "date"
               = Some (VStr "2013-04-24 08:07:02 UTC")) by reflexivity.
  assert (H6 : int_of_string (str_take 4 "2013-04-24 08:07:02 UTC") = Some 2013)
    by reflexivity.
  assert (H7 : is_Some (note_properties 7 [comment "a #b"] !! "url"))
    by (exists (VStr "u"); reflexivity).
  assert (H8 : is_Some (note_properties 7 [comment "a #b"] !! "comment_url"))
    by (exists (VStr "c"); reflexivity).
  assert (H9 : is_Some (note_properties 7 [comment "a #b"] !! "close_url"))
    by (exists (VStr "x"); reflexivity).
  split; [exact H1|]. split; [exact H2|]. split; [exact H3|]. split; [exact H4|].
  split; [exact H5|]. split; [exact H6|].
  destruct (process_feature_in_place first_seen 1%positive _ _ _ _ _ _ _ _
              H1 H2 H3 H4 H5 H6 H7 H8 H9)
    as (pd' & Hcall & _ & _ & Htags & _ & _ & _ & _ & _ & _ & Hid).
  exists pd'. split; [exact Hcall|]. split; [exact Htags|exact Hid].
Defined.

(** *** Coverage and determinism *)

(** C1, as stated, fails: a note on the common border of two cells is
    returned by the fetch of each, and the collection has its record twice;
    and a note without comments, which the country contains, has no record. *)
Lemma note_on_border_twice :
  (border_note ∈ [border_note]
   ∧ wanted two_cell_world border_note = Ok true
   ∧ process_feature_result first_seen border_note = Ok (record 1 4 2 "bench" "")
   ∧ main two_cell_world [0%nat; 0%nat]
     = Saved [record 1 4 2 "bench" ""; record 1 4 2 "bench" ""])
  ∧ (contains silent_world (point 2 2) = true
     ∧ main silent_world [0%nat] = Saved [record 1 1 1 "a" ""; record 3 3 3 "b" ""]).
Proof.
  split.
  - split; [apply list_elem_of_here|]. repeat split; vm_compute; reflexivity.
  - split; vm_compute; reflexivity.
Qed.

(** C1, amended. Let the API answer a query with the notes of the dataset
    that are in the box of the query, up to the limit, and let the country
    have bounds of positive width and height. When [main] saves a
    collection, every note of the dataset that has a comment and whose
    point the country contains has its record in the collection, at least
    once. *)
Theorem every_note_is_harvested W dataset min_lon min_lat max_lon max_lat
    schedule collection feature x y :
  (∀ b, get_notes W b = notes_in dataset b) →
  sound_country W →
  bounds W = (min_lon, min_lat, max_lon, max_lat) →
  (min_lon < max_lon)%Q → (min_lat < max_lat)%Q →
  main W schedule = Saved collection →
  feature ∈ dataset → feature_point feature = Some (x, y) →
  wanted W feature = Ok true →
  ∃ r, process_feature_result (set_iter W) feature = Ok r ∧ r ∈ collection.
Proof.
  intros Hapi Hsound HW Hlon Hlat Hmain Hin Hpt Hw.
  unfold main in Hmain.
  destruct (run_tasks W schedule (mkRun (bootstrap_cells W) [])) as [s|] eqn:Hrun; [|done].
  destruct (tasks s) eqn:Hend; [|done].
  destruct (save_result (features s)) as [out|] eqn:Hsave; [|done].
  injection Hmain as ->.
  destruct (run_tasks_harvest W _ _ _ Hrun Hend) as (records & Hh & Hperm). simpl in *.
  destruct (harvest_covers W dataset Hapi Hsound _ _ feature x y Hh Hin Hpt Hw) as (r & Hr & Hel).
  - destruct (wanted_true W _ Hw) as (? & ? & g & _ & _ & _ & Hg & Hcontains).
    assert (Hpg : point_of_geometry g = Some (x, y)).
    { unfold feature_point in Hpt. by rewrite Hg in Hpt. }
    destruct (Hsound g x y Hpg Hcontains) as [Hb _].
    unfold bounds_box in Hb. rewrite HW in Hb.
    destruct (bootstrap_cells_cover W _ _ _ _ x y HW Hlon Hlat Hb) as (c & Hc & _ & Hbox).
    eauto.
  - exists r. split; [done|]. apply sorted_by_id_perm in Hsave. by rewrite Hsave, Hperm.
Qed.

Lemma every_note_is_harvested_witness :
  (∀ b, get_notes two_cell_world b = notes_in [border_note] b)
  ∧ sound_country two_cell_world
  ∧ bounds two_cell_world = (0, 0, 8, 4)%Q ∧ (0 < 8)%Q ∧ (0 < 4)%Q
  ∧ main two_cell_world [0%nat; 0%nat]
    = Saved [record 1 4 2 "bench" ""; record 1 4 2 "bench" ""]
  ∧ border_note ∈ [border_note]
  ∧ feature_point border_note = Some (4, 2)%Q
  ∧ wanted two_cell_world border_note = Ok true
  ∧ ∃ r, process_feature_result (set_iter two_cell_world) border_note = Ok r
         ∧ r ∈ [record 1 4 2 "bench" ""; record 1 4 2 "bench" ""].
Proof.
  assert (H1 : ∀ b, get_notes two_cell_world b = notes_in [border_note] b)
    by (intros b; reflexivity).
  assert (H2 : sound_country two_cell_world) by apply rectangle_world_sound.
  assert (H3 : border_note ∈ [border_note]) by apply list_elem_of_here.
  assert (H4 : feature_point border_note = Some (4, 2)%Q) by reflexivity.
  assert (H5 : wanted two_cell_world border_note = Ok true) by (vm_compute; reflexivity).
  assert (H6 : main two_cell_world [0%nat; 0%nat]
               = Saved [record 1 4 2 "bench" ""; record 1 4 2 "bench" ""])
    by (vm_compute; reflexivity).
  split; [exact H1|]. split; [exact H2|]. split; [reflexivity|]. split; [reflexivity|].
  split; [reflexivity|]. split; [exact H6|]. split; [exact H3|]. split; [exact H4|].
  split; [exact H5|].
  exact (every_note_is_harvested two_cell_world [border_note] 0 0 8 4 _ _
           border_note 4 2 H1 H2 eq_refl eq_refl eq_refl H6 H3 H4 H5)%Q.
Defined.

(** C4, as stated, fails: two runs against the same notes, in which the
    set of the two hashtags of a note is iterated in the two possible
    orders, save collections that differ in [tags]. *)
Lemma tags_differ_between_runs :
  same_data (hashtag_world first_seen) (hashtag_world last_seen)
  ∧ valid_set_iter first_seen ∧ valid_set_iter last_seen
  ∧ main (hashtag_world first_seen) [0%nat] = Saved [record 1 1 1 "#a #b" "#a #b"]
  ∧ main (hashtag_world last_seen) [0%nat] = Saved [record 1 1 1 "#a #b" "#b #a"]
  ∧ [record 1 1 1 "#a #b" "#a #b"] ≠ [record 1 1 1 "#a #b" "#b #a"].
Proof.
  split; [done|]. split; [apply first_seen_valid|]. split; [apply last_seen_valid|].
  split; [vm_compute; reflexivity|]. split; [vm_compute; reflexivity|].
  intros Heq. apply (f_equal tags_of) in Heq. vm_compute in Heq. discriminate.
Qed.

(** C4, amended. Two runs against the same country and the same notes,
    whatever the order in which their tasks finish, save collections that
    are equal as multisets once [tags] is left out of the records, and that
    are the same list when the identifier determines the record. When both
    runs iterate sets in the same order, this holds with [tags] as well. *)
Theorem runs_agree W1 W2 schedule1 schedule2 collection1 collection2 :
  same_data W1 W2 →
  main W1 schedule1 = Saved collection1 → main W2 schedule2 = Saved collection2 →
  erase_tags <$> collection1 ≡ₚ erase_tags <$> collection2
  ∧ ((∀ r r', r ∈ collection1 → r' ∈ collection1 →
        feature_id r = feature_id r' → erase_tags r = erase_tags r') →
     erase_tags <$> collection1 = erase_tags <$> collection2)
  ∧ ((∀ l, set_iter W1 l = set_iter W2 l) →
     collection1 ≡ₚ collection2
     ∧ ((∀ r r', r ∈ collection1 → r' ∈ collection1 → feature_id r = feature_id r' → r = r') →
        collection1 = collection2)).
Proof.
  intros Hdata Hm1 Hm2.
  destruct (main_harvest _ _ _ Hm1) as (s1 & r1 & _ & _ & Hs1).
  destruct (main_harvest _ _ _ Hm2) as (s2 & r2 & _ & _ & Hs2).
  assert (Hids : ∀ r r', r ∈ collection1 → r' ∈ collection1 →
                   id_or_0 r = id_or_0 r' → feature_id r = feature_id r').
  { intros r r' Hr Hr' Heq.
    rewrite (sorted_by_id_ids _ _ r Hs1 Hr), (sorted_by_id_ids _ _ r' Hs1 Hr'). by f_equal. }
  assert (Hid_erase : ∀ r, id_or_0 (erase_tags r) = id_or_0 r).
  { intros r. unfold id_or_0. by rewrite feature_id_erase. }
  assert (Hperm : erase_tags <$> collection1 ≡ₚ erase_tags <$> collection2).
  { eapply runs_related; [done| |done..]. intros. apply process_feature_erase. }
  split; [done|]. split.
  - intros Hsame. apply sorted_eq_of_perm; [| |done|].
    + apply fmap_sorted; [done|]. by eapply sorted_by_id_sorted.
    + apply fmap_sorted; [done|]. by eapply sorted_by_id_sorted.
    + intros a b (r & -> & Hr)%list_elem_of_fmap (r' & -> & Hr')%list_elem_of_fmap.
      rewrite !Hid_erase. intros Heq. apply Hsame; auto.
  - intros Hsi.
    assert (Hperm' : collection1 ≡ₚ collection2).
    { rewrite <- (list_fmap_id collection1), <- (list_fmap_id collection2).
      eapply runs_related; [done| |done..].
      intros feature. by rewrite (process_feature_ext _ _ feature Hsi). }
    split; [done|].
    intros Hsame. apply sorted_eq_of_perm; [by eapply sorted_by_id_sorted..|done|].
    intros a b Ha Hb Heq. apply Hsame; auto.
Qed.

Lemma runs_agree_witness :
  same_data (hashtag_world first_seen) (hashtag_world last_seen)
  ∧ main (hashtag_world first_seen) [0%nat] = Saved [record 1 1 1 "#a #b" "#a #b"]
  ∧ main (hashtag_world last_seen) [0%nat; 0%nat] = Saved [record 1 1 1 "#a #b" "#b #a"]
  ∧ erase_tags <$> [record 1 1 1 "#a #b" "#a #b"] ≡ₚ erase_tags <$> [record 1 1 1 "#a #b" "#b #a"].
Proof.
  assert (H1 : same_data (hashtag_world first_seen) (hashtag_world last_seen))
    by (repeat split).
  assert (H2 : main (hashtag_world first_seen) [0%nat]
               = Saved [record 1 1 1 "#a #b" "#a #b"]) by (vm_compute; reflexivity).
  assert (H3 : main (hashtag_world last_seen) [0%nat; 0%nat]
               = Saved [record 1 1 1 "#a #b" "#b #a"]) by (vm_compute; reflexivity).
  split; [exact H1|]. split; [exact H2|]. split; [exact H3|].
  exact (proj1 (runs_agree _ _ _ _ _ _ H1 H2 H3)).
Defined.


(** * Further properties *)

(** ** [_load_country_shape] *)

Lemma first_PL_app before c after :
  Forall (λ c', is_PL c' = Ok false) before →
  first_PL (before ++ c :: after) = first_PL (c :: after).
Proof. induction 1 as [|c' before Hc' _ IH]; [done|]. simpl. by rewrite Hc'. Qed.

(** X1. [_load_country_shape] takes the first feature of the file whose
    tag ['ISO3166-1'] is ['PL']: when the features before it have another
    code, the call gives the geometry of that feature, whatever comes after
    it in the file. *)
Theorem load_country_shape_first file before c after geometry :
  getitem file "features" = Ok (VList (before ++ c :: after)) →
  Forall (λ c', is_PL c' = Ok false) before →
  is_PL c = Ok true → getitem c "geometry" = Ok geometry →
  _load_country_shape file = Shape geometry.
Proof.
  intros Hf Hb Hc Hg. unfold _load_country_shape. rewrite Hf.
  rewrite first_PL_app by done. simpl. by rewrite Hc, Hg.
Qed.

Lemma load_country_shape_first_witness :
  _load_country_shape
    (countries_file [country_feature "DE" VNone; country_feature "PL" (point 1 1);
                     country_feature "PL" VNone])
  = Shape (point 1 1).
Proof.
  apply (load_country_shape_first _ [country_feature "DE" VNone]
           (country_feature "PL" (point 1 1)) [country_feature "PL" VNone]).
  - vm_compute; reflexivity.
  - constructor; [vm_compute; reflexivity|constructor].
  - vm_compute; reflexivity.
  - vm_compute; reflexivity.
Defined.

(** X2. When no feature of the file has the code ['PL'], [next] raises
    [StopIteration]: the generator has no default. A feature that makes the
    test raise (one without the tag, say) before the first feature with the
    code makes the call raise, although the country is in the file. *)
Theorem load_country_shape_fails file l :
  getitem file "features" = Ok (VList l) →
  (Forall (λ c, is_PL c = Ok false) l → _load_country_shape file = StopIteration)
  ∧ (∀ before c after e,
       l = before ++ c :: after →
       Forall (λ c', is_PL c' = Ok false) before → is_PL c = Raise e →
       _load_country_shape file = LoadError e).
Proof.
  intros Hf. unfold _load_country_shape. rewrite Hf. clear Hf. split.
  - induction 1 as [|c l' Hc _ IH]; [done|]. simpl. by rewrite Hc.
  - intros before c after e -> Hb Hc. rewrite first_PL_app by done. simpl. by rewrite Hc.
Qed.

Lemma load_country_shape_fails_witness :
  _load_country_shape
    (countries_file [country_feature "DE" VNone; country_feature "FR" VNone]) = StopIteration
  ∧ _load_country_shape
      (countries_file [country_feature "DE" VNone; untagged_feature;
                       country_feature "PL" (point 1 1)]) = LoadError KeyError.
Proof.
  assert (H1 : getitem (countries_file [country_feature "DE" VNone; country_feature "FR" VNone])
                 "features"
               = Ok (VList [country_feature "DE" VNone; country_feature "FR" VNone]))
    by (vm_compute; reflexivity).
  assert (H2 : getitem (countries_file [country_feature "DE" VNone; untagged_feature;
                                        country_feature "PL" (point 1 1)]) "features"
               = Ok (VList [country_feature "DE" VNone; untagged_feature;
                            country_feature "PL" (point 1 1)]))
    by (vm_compute; reflexivity).
  split.
  - apply (proj1 (load_country_shape_fails _ _ H1)).
    constructor; [vm_compute; reflexivity|].
    constructor; [vm_compute; reflexivity|constructor].
  - apply (proj2 (load_country_shape_fails _ _ H2)
             [country_feature "DE" VNone] untagged_feature [country_feature "PL" (point 1 1)]).
    + reflexivity.
    + constructor; [vm_compute; reflexivity|constructor].
    + vm_compute; reflexivity.
Defined.

(** ** Runs: what does not depend on the schedule *)

Lemma harvest_nil_inv W r : harvest W [] r → r = [].
Proof. by inversion 1. Qed.

Lemma step_harvest W pick s c r :
  harvest W (tasks s) r → tasks s !! pick = Some c →
  ∃ s' r', step W pick s = Ok s' ∧ harvest W (tasks s') r'
           ∧ features s' ++ r' ≡ₚ features s ++ r.
Proof.
  intros Hh Hpick. rewrite <- (take_drop_middle _ _ _ Hpick) in Hh.
  apply harvest_app_inv in Hh as (ra & rb & Hha & Hhb & ->).
  inversion Hhb as [|? ? started records below others Hc Hbelow Hothers]; subst.
  unfold step. rewrite Hpick, Hc. simpl.
  eexists _, (ra ++ others ++ below). split; [done|]. simpl. split.
  - rewrite delete_take_drop. rewrite <- app_assoc.
    apply harvest_app; [done|]. by apply harvest_app.
  - rewrite <- !app_assoc. apply Permutation_app_head.
    rewrite (Permutation_app_swap_app records ra). apply Permutation_app_head.
    apply Permutation_app_head, Permutation_app_comm.
Qed.

Lemma run_tasks_total W sched s r :
  harvest W (tasks s) r →
  ∃ s' r', run_tasks W sched s = Ok s' ∧ harvest W (tasks s') r'
           ∧ features s' ++ r' ≡ₚ features s ++ r.
Proof.
  revert s r. induction sched as [|pick sched IH]; intros s r Hh; simpl.
  - eauto.
  - destruct (tasks s !! pick) as [c|] eqn:Hpick.
    + destruct (step_harvest W pick s c r Hh Hpick) as (s1 & r1 & -> & Hh1 & Hp1). simpl.
      destruct (IH s1 r1 Hh1) as (s' & r' & Hrun & Hh' & Hp').
      exists s', r'. split; [done|]. split; [done|]. by rewrite Hp'.
    + unfold step. rewrite Hpick. simpl. by apply IH.
Qed.

Lemma with_keys_perm l1 l2 kl1 :
  l1 ≡ₚ l2 → with_keys l1 = Ok kl1 → ∃ kl2, with_keys l2 = Ok kl2.
Proof.
  intros Hp. revert kl1. induction Hp as [|f l1 l2 Hp IH|f g l|l1 l2 l3 Hp1 IH1 Hp2 IH2];
    intros kl1; simpl.
  - eauto.
  - destruct (feature_id f); simpl; [|done].
    destruct (with_keys l1) as [kl|] eqn:Hk; simpl; [|done].
    destruct (IH kl) as [kl2 ->]; [done|]. simpl. eauto.
  - destruct (feature_id f), (feature_id g), (with_keys l); simpl; try done; eauto.
  - intros H1. destruct (IH1 _ H1) as [kl2 H2]. eauto.
Qed.

Lemma sorted_by_id_perm_Ok l1 l2 out1 :
  l1 ≡ₚ l2 → sorted_by_id l1 = Ok out1 → ∃ out2, sorted_by_id l2 = Ok out2.
Proof.
  unfold sorted_by_id. intros Hp.
  destruct (with_keys l1) as [kl1|] eqn:Hk; [|done]. intros _.
  destruct (with_keys_perm _ _ _ Hp Hk) as [kl2 ->]. simpl. eauto.
Qed.

(** X3. The order in which the tasks finish does not decide whether the
    run fails: when one schedule ends with a saved collection, every other
    schedule is still running or saves a collection of the same records. *)
Theorem saved_whatever_the_schedule W schedule collection :
  main W schedule = Saved collection →
  ∀ schedule',
    main W schedule' = Unfinished
    ∨ ∃ collection', main W schedule' = Saved collection' ∧ collection' ≡ₚ collection.
Proof.
  intros (s & r & Hh & Hp & Hs)%main_harvest schedule'.
  destruct (run_tasks_total W schedule' (mkRun (bootstrap_cells W) []) r Hh)
    as (s' & r' & Hrun & Hh' & Hp'). simpl in *.
  unfold main. rewrite Hrun. destruct (tasks s') eqn:Hend; [|by left]. right.
  apply harvest_nil_inv in Hh' as ->. rewrite app_nil_r in Hp'.
  assert (Hpp : features s ≡ₚ features s') by (by rewrite Hp, Hp').
  destruct (sorted_by_id_perm_Ok _ _ _ Hpp Hs) as [out Hout].
  unfold save_result. rewrite Hout. exists out. split; [done|].
  apply sorted_by_id_perm in Hs, Hout. by rewrite Hs, Hout.
Qed.

Lemma saved_whatever_the_schedule_witness :
  main two_cell_world [0%nat; 0%nat]
  = Saved [record 1 4 2 "bench" ""; record 1 4 2 "bench" ""]
  ∧ (main two_cell_world [1%nat; 0%nat] = Unfinished
     ∨ ∃ collection', main two_cell_world [1%nat; 0%nat] = Saved collection'
                      ∧ collection' ≡ₚ [record 1 4 2 "bench" ""; record 1 4 2 "bench" ""]).
Proof.
  assert (H : main two_cell_world [0%nat; 0%nat]
              = Saved [record 1 4 2 "bench" ""; record 1 4 2 "bench" ""])
    by (vm_compute; reflexivity).
  split; [exact H|].
  exact (saved_whatever_the_schedule two_cell_world _ _ H [1%nat; 0%nat]).
Defined.

(** ** A cluster of notes at one point *)

Lemma is_at_in_bbox b x y f :
  in_box b x y → is_at x y f = true → in_bbox b f = true.
Proof.
  unfold is_at, in_bbox. destruct (feature_point f) as [[x' y']|]; [|done].
  rewrite andb_true_iff. intros (? & ? & ? & ?) [Hx%Qeq_bool_eq Hy%Qeq_bool_eq].
  apply in_box_b_true. unfold in_box. rewrite Hx, Hy. auto.
Qed.

Lemma filter_length_mono {A} (P1 P2 : A → Prop)
    `{∀ x, Decision (P1 x)} `{∀ x, Decision (P2 x)} (l : list A) :
  (∀ x, P1 x → P2 x) → (length (filter P1 l) ≤ length (filter P2 l))%nat.
Proof.
  intros HP. induction l as [|x l IH]; [done|].
  rewrite !filter_cons. destruct (decide (P1 x)), (decide (P2 x)); simpl; try lia.
  exfalso. eauto.
Qed.

Lemma elem_of_delete_ne {A} (l : list A) i x y :
  l !! i = Some y → x ∈ l → x ≠ y → x ∈ delete i l.
Proof.
  revert i. induction l as [|z l IH]; intros i Hi Hx Hne; [by apply elem_of_nil in Hx|].
  destruct i as [|i]; simpl in *.
  - injection Hi as ->. apply elem_of_cons in Hx as [?|?]; done.
  - apply elem_of_cons in Hx as [->|Hx]; [apply list_elem_of_here|].
    apply list_elem_of_further. by eapply IH.
Qed.

Section cluster.
Context (W : World) (dataset : list val) (x y : Q).
Hypothesis api : ∀ b, get_notes W b = notes_in dataset b.
Hypothesis inside : ∀ b, in_box b x y → intersects W b = true.
Hypothesis cluster :
  API_LIMIT ≤ Z.of_nat (length (filter (λ f, is_at x y f = true) dataset)).

Lemma cluster_cell_splits c :
  in_box (cell_box c) x y → process_cell W c = Ok (split_cell c, []).
Proof.
  intros Hbox. unfold process_cell. rewrite (inside _ Hbox), api. simpl.
  unfold notes_in. simpl. rewrite length_take.
  pose proof (filter_length_mono (λ f, is_at x y f = true)
                (λ f, in_bbox (cell_box c) f = true) dataset
                (λ f, is_at_in_bbox _ _ _ f Hbox)) as Hlen.
  unfold API_LIMIT in *.
  replace (Z.of_nat (Z.to_nat 10000 `min` _)) with 10000 by lia.
  done.
Qed.

Lemma step_keeps_cluster pick s s' :
  step W pick s = Ok s' →
  (∃ c, c ∈ tasks s ∧ in_box (cell_box c) x y) →
  ∃ c, c ∈ tasks s' ∧ in_box (cell_box c) x y.
Proof.
  unfold step. destruct (tasks s !! pick) as [c'|] eqn:Hpick; [|by intros [= <-]].
  destruct (process_cell W c') as [[started records]|] eqn:Hc'; [|done]. simpl.
  intros [= <-] (c & Hc & Hbox). simpl.
  destruct (in_box_b (cell_box c') x y) eqn:Hb'.
  - apply in_box_b_true in Hb'.
    rewrite (cluster_cell_splits _ Hb') in Hc'. injection Hc' as <- <-.
    destruct (proj1 (split_cell_no_gaps c' x y) Hb') as (child & Hchild & Hcb).
    exists child. split; [|done]. apply elem_of_app. by right.
  - exists c. split; [|done]. apply elem_of_app. left.
    eapply elem_of_delete_ne; [done..|]. intros ->.
    apply in_box_b_true in Hbox. congruence.
Qed.

Lemma run_keeps_cluster sched s s' :
  run_tasks W sched s = Ok s' →
  (∃ c, c ∈ tasks s ∧ in_box (cell_box c) x y) →
  ∃ c, c ∈ tasks s' ∧ in_box (cell_box c) x y.
Proof.
  revert s. induction sched as [|pick sched IH]; intros s; simpl.
  - by intros [= <-].
  - destruct (step W pick s) as [s1|] eqn:Hstep; [|done]. simpl.
    intros Hrun Hc. eapply IH; [done|]. by eapply step_keeps_cluster.
Qed.
End cluster.

(** X4. As many notes at one point of the country as the limit of a
    query, with an API that answers with the notes of the box up to the
    limit: every cell that has the point is split again, and no run ends
    with a file; whatever the schedule, it is still running or has failed. *)
Theorem cluster_never_saved W dataset min_lon min_lat max_lon max_lat x y :
  (∀ b, get_notes W b = notes_in dataset b) →
  (∀ b, in_box b x y → intersects W b = true) →
  bounds W = (min_lon, min_lat, max_lon, max_lat) →
  (min_lon < max_lon)%Q → (min_lat < max_lat)%Q →
  in_box (box min_lon min_lat max_lon max_lat) x y →
  API_LIMIT ≤ Z.of_nat (length (filter (λ f, is_at x y f = true) dataset)) →
  (∀ c, in_box (cell_box c) x y → process_cell W c = Ok (split_cell c, []))
  ∧ ∀ schedule, main W schedule = Unfinished ∨ ∃ e, main W schedule = Failed e.
Proof.
  intros Hapi Hin HW Hlon Hlat Hbox Hcluster.
  split; [by apply (cluster_cell_splits W dataset x y)|].
  intros schedule. unfold main.
  destruct (run_tasks W schedule (mkRun (bootstrap_cells W) [])) as [s|e] eqn:Hrun; [|eauto].
  destruct (run_keeps_cluster W dataset x y Hapi Hin Hcluster _ _ _ Hrun) as (c & Hc & _).
  - simpl. destruct (bootstrap_cells_cover W _ _ _ _ x y HW Hlon Hlat Hbox)
      as (c & Hc & _ & Hcb). eauto.
  - destruct (tasks s); [by apply elem_of_nil in Hc|]. by left.
Qed.

Lemma cluster_never_saved_witness :
  API_LIMIT ≤ Z.of_nat (length (filter (λ f, is_at 1 1 f = true) full_notes))
  ∧ process_cell full_world (mkCell 0 0 4) = Ok (split_cell (mkCell 0 0 4), [])
  ∧ (main full_world [0%nat; 3%nat; 1%nat] = Unfinished
     ∨ ∃ e, main full_world [0%nat; 3%nat; 1%nat] = Failed e).
Proof.
  assert (H1 : ∀ b, get_notes full_world b = notes_in full_notes b) by (intros b; reflexivity).
  assert (H2 : ∀ b, in_box b 1 1 → intersects full_world b = true).
  { apply (rectangle_world_sound (box 0 0 4 4) full_notes first_seen (point 1 1) 1%Q 1%Q).
    - reflexivity.
    - change (strictly_inside (box 0 0 4 4) (point 1 1) = true). reflexivity. }
  assert (H3 : in_box (box 0 0 4 4) 1 1) by (unfold in_box; simpl; repeat split; lra).
  assert (H4 : API_LIMIT ≤ Z.of_nat (length (filter (λ f, is_at 1 1 f = true) full_notes))).
  { unfold full_notes. rewrite filter_replicate_true by (vm_compute; reflexivity).
    rewrite length_replicate. unfold API_LIMIT. lia. }
  destruct (cluster_never_saved full_world full_notes 0 0 4 4 1 1 H1 H2 eq_refl eq_refl
              eq_refl H3 H4)%Q as [Hsplit Hmain].
  split; [exact H4|]. split; [|exact (Hmain _)].
  apply Hsplit. unfold in_box; simpl; repeat split; lra.
Defined.

(** ** The cells of a run *)

Lemma halved_pos k c : halved k c → (0 < size c)%Q.
Proof.
  unfold halved, INIT_CELL_SIZE. intros H.
  assert (0 < inject_Z (2 ^ Z.of_nat k))%Q.
  { rewrite <- (Zlt_Qlt 0). lia. }
  destruct (Qlt_le_dec 0 (size c)) as [|Hle]; [done|]. exfalso.
  assert (size c * inject_Z (2 ^ Z.of_nat k) <= 0)%Q; [|lra].
  rewrite <- (Qmult_0_l (inject_Z (2 ^ Z.of_nat k))).
  apply Qmult_le_compat_r; [done|]. by apply Qlt_le_weak.
Qed.

Lemma halved_split k c child : halved k c → child ∈ split_cell c → halved (S k) child.
Proof.
  unfold halved, split_cell. intros H Hc.
  assert (Hs : size child = (size c / 2)%Q).
  { rewrite !elem_of_cons, elem_of_nil in Hc. by destruct Hc as [->|[->|[->|[->|[]]]]]. }
  rewrite Hs. rewrite Nat2Z.inj_succ, Z.pow_succ_r by lia.
  rewrite inject_Z_mult. change (inject_Z 2) with 2%Q. rewrite <- H. field.
Qed.

Lemma subbox_split c child :
  (0 <= size c)%Q → child ∈ split_cell c → subbox (cell_box child) (cell_box c).
Proof.
  unfold split_cell, subbox, cell_box. qhalf. intros Hs Hc.
  rewrite !elem_of_cons, elem_of_nil in Hc.
  destruct Hc as [->|[->|[->|[->|[]]]]]; simpl; repeat split; lra.
Qed.

Lemma subbox_trans a b c : subbox a b → subbox b c → subbox a c.
Proof. unfold subbox. intros (? & ? & ? & ?) (? & ? & ? & ?). repeat split; lra. Qed.

Lemma grid_cell_split W c child : grid_cell W c → child ∈ split_cell c → grid_cell W child.
Proof.
  intros [[k Hk] Hsub] Hc. split.
  - exists (S k). by eapply halved_split.
  - eapply subbox_trans; [|done]. apply subbox_split; [|done].
    apply Qlt_le_weak. by eapply halved_pos.
Qed.

Lemma grid_cell_bootstrap W c : c ∈ bootstrap_cells W → grid_cell W c.
Proof.
  intros Hc. pose proof (elem_of_bootstrap_cells W) as Hel. unfold grid_cell, grid_box.
  destruct (bounds W) as [[[x0 y0] x1] y1].
  destruct (proj1 (Hel x0 y0 x1 y1 c eq_refl) Hc) as (i & j & Hi & Hj & ->).
  split.
  - exists 0%nat. unfold halved. simpl. by vm_compute.
  - unfold subbox, cell_box, INIT_CELL_SIZE in *. simpl.
    clear Hel Hc.
    generalize dependent (Qceiling ((x1 - x0) / 4)). intros n Hi.
    generalize dependent (Qceiling ((y1 - y0) / 4)). intros m Hj.
    assert (0 <= inject_Z i)%Q by (rewrite <- (Zle_Qle 0); lia).
    assert (0 <= inject_Z j)%Q by (rewrite <- (Zle_Qle 0); lia).
    assert (inject_Z (i + 1) <= inject_Z n)%Q by (rewrite <- Zle_Qle; lia).
    assert (inject_Z (j + 1) <= inject_Z m)%Q by (rewrite <- Zle_Qle; lia).
    rewrite inject_Z_plus in *. change (inject_Z 1) with 1%Q in *.
    repeat split; lra.
Qed.

Lemma step_grid_cells W pick s s' :
  step W pick s = Ok s' → Forall (grid_cell W) (tasks s) → Forall (grid_cell W) (tasks s').
Proof.
  unfold step. destruct (tasks s !! pick) as [c|] eqn:Hpick; [|by intros [= <-]].
  destruct (process_cell W c) as [[started records]|] eqn:Hc; [|done]. simpl.
  intros [= <-] Hall. simpl. apply Forall_app. split.
  - rewrite delete_take_drop. apply Forall_app. split.
    + by apply Forall_take.
    + by apply Forall_drop.
  - assert (Hgc : grid_cell W c).
    { rewrite Forall_forall in Hall. apply Hall. by eapply list_elem_of_lookup_2. }
    unfold process_cell in Hc. destruct (intersects W (cell_box c)); simpl in Hc;
      [|injection Hc as <- <-; constructor].
    destruct (get_notes W (cell_box c)) as [l|]; [|done]. simpl in Hc.
    destruct (Z.of_nat (length l) =? API_LIMIT).
    + injection Hc as <- <-. apply Forall_forall. intros child Hchild.
      by eapply grid_cell_split.
    + destruct (cell_features W l); simpl in Hc; [|done]. injection Hc as <- <-. constructor.
Qed.

(** X5. Every task of a run is a cell of the grid: its size is positive,
    it is [INIT_CELL_SIZE] halved some number of times, and its box lies
    within the boxes of the bootstrap, taken together. *)
Theorem cells_stay_in_grid W schedule s :
  run_tasks W schedule (mkRun (bootstrap_cells W) []) = Ok s →
  Forall (λ c, (0 < size c)%Q ∧ (∃ k, halved k c) ∧ subbox (cell_box c) (grid_box W))
    (tasks s).
Proof.
  intros Hrun.
  assert (Hall : Forall (grid_cell W) (tasks s)).
  { assert (Hinit : Forall (grid_cell W) (tasks (mkRun (bootstrap_cells W) []))).
    { apply Forall_forall. intros c Hc. by apply grid_cell_bootstrap. }
    revert Hrun Hinit. generalize (mkRun (bootstrap_cells W) []).
    induction schedule as [|pick schedule IH]; intros s0; simpl.
    - by intros [= <-].
    - destruct (step W pick s0) as [s1|] eqn:Hstep; [|done]. simpl.
      intros Hrun Hall. eapply IH; [done|]. by eapply step_grid_cells. }
  eapply Forall_impl; [done|]. intros c [[k Hk] Hsub].
  split; [by eapply halved_pos|]. split; [by exists k|done].
Qed.

Lemma cells_stay_in_grid_witness :
  run_tasks two_cell_world [0%nat] (mkRun (bootstrap_cells two_cell_world) [])
  = Ok (mkRun [mkCell 4 0 4] [record 1 4 2 "bench" ""])
  ∧ Forall (λ c, (0 < size c)%Q ∧ (∃ k, halved k c)
                 ∧ subbox (cell_box c) (grid_box two_cell_world))
      [mkCell 4 0 4].
Proof.
  assert (H : run_tasks two_cell_world [0%nat] (mkRun (bootstrap_cells two_cell_world) [])
              = Ok (mkRun [mkCell 4 0 4] [record 1 4 2 "bench" ""]))
    by (vm_compute; reflexivity).
  split; [exact H|]. exact (cells_stay_in_grid two_cell_world [0%nat] _ H).
Defined.

(** ** The records of a cell *)

(** X6. The generator expression of [process_cell] is a filter followed by
    a map: it returns [records] exactly when the filter can be evaluated on
    every item of the response and [records] are the results of
    [process_feature] on the items that pass it, one for one and in the
    order of the response. *)
Theorem cell_features_filter_map W cell_result records :
  cell_features W cell_result = Ok records ↔
  Forall (λ feature, ∃ keep, wanted W feature = Ok keep) cell_result
  ∧ Forall2 (λ feature record, process_feature_result (set_iter W) feature = Ok record)
      (filter (λ feature, is_wanted W feature = true) cell_result) records.
Proof.
  revert records. induction cell_result as [|feature rest IH]; intros records.
  - simpl. split.
    + intros [= <-]. split; constructor.
    + intros [_ H]. by inversion H.
  - rewrite cell_features_cons.
    destruct (wanted W feature) as [[]|e] eqn:Hw; simpl.
    + rewrite filter_cons_True by (unfold is_wanted; by rewrite Hw).
      destruct (process_feature_result (set_iter W) feature) as [record|e] eqn:Hr; simpl.
      * destruct (cell_features W rest) as [records'|e] eqn:Hcf; simpl.
        -- split.
           ++ intros [= <-]. destruct (proj1 (IH records') eq_refl) as [H1 H2].
              split; constructor; eauto.
           ++ intros [H1 H2]. inversion H1; subst. inversion H2 as [|? r ? rs Hr' H2']; subst.
              rewrite Hr in Hr'. injection Hr' as <-.
              f_equal. f_equal. assert (Ok records' = Ok rs) as [= ->]; [|done].
              apply IH. by split.
        -- split; [done|]. intros [H1 H2]. inversion H1; subst.
           inversion H2 as [|? r ? rs Hr' H2']; subst.
           assert (Raise e = Ok rs) as [=]. apply IH. by split.
      * split; [done|]. intros [_ H2]. inversion H2; subst. congruence.
    + rewrite filter_cons_False by (unfold is_wanted; by rewrite Hw). rewrite IH. split.
      * intros [H1 H2]. split; [constructor; eauto|done].
      * intros [H1 H2]. inversion H1; subst. by split.
    + split; [done|]. intros [H1 _]. inversion H1 as [|? ? [keep Hk]]; subst. congruence.
Qed.

Lemma cell_features_filter_map_witness :
  cell_features edge_world
    [note 1 1 1 [comment "inside"]; note 2 4 4 [comment "on the border"]]
  = Ok [record 1 1 1 "inside" ""]
  ∧ Forall2 (λ feature record,
               process_feature_result (set_iter edge_world) feature = Ok record)
      (filter (λ feature, is_wanted edge_world feature = true)
         [note 1 1 1 [comment "inside"]; note 2 4 4 [comment "on the border"]])
      [record 1 1 1 "inside" ""].
Proof.
  assert (H : cell_features edge_world
                [note 1 1 1 [comment "inside"]; note 2 4 4 [comment "on the border"]]
              = Ok [record 1 1 1 "inside" ""]) by (vm_compute; reflexivity).
  split; [exact H|]. exact (proj2 (proj1 (cell_features_filter_map edge_world _ _) H)).
Defined.

(** ** Hashtags *)

Lemma no_space_app s1 s2 : no_space (s1 +:+ s2) = no_space s1 && no_space s2.
Proof. induction s1 as [|c s1 IH]; simpl; [done|]. by rewrite IH, andb_assoc. Qed.

Lemma string_app_assoc (s1 s2 s3 : string) : (s1 +:+ s2) +:+ s3 = s1 +:+ (s2 +:+ s3).
Proof.
  induction s1 as [|c s1 IH]; [done|].
  change (String c ((s1 +:+ s2) +:+ s3) = String c (s1 +:+ (s2 +:+ s3))). by f_equal.
Qed.

Lemma findall_from_hashtags s cur :
  match cur with
  | Some tok => ∃ t', tok = String hash_char t' ∧ no_space tok = true
                      ∧ (t' ≠ EmptyString ∨ starts_nonspace s = true)
  | None => True
  end →
  Forall is_hashtag (findall_from cur s).
Proof.
  revert cur. induction s as [|c s IH]; intros cur Hcur; simpl.
  - destruct cur as [tok|]; [|constructor].
    destruct Hcur as (t' & -> & Hns & [Hne|?]); [|done].
    constructor; [|constructor]. by exists t'.
  - destruct cur as [tok|].
    + destruct Hcur as (t' & -> & Hns & Hne). simpl in Hne.
      destruct (isspace c) eqn:Hc.
      * constructor; [|by apply IH]. exists t'. destruct Hne as [?|?]; done.
      * apply IH. exists (t' +:+ String c ""). split; [done|]. split.
        -- change (String hash_char t' +:+ String c "")
             with (String hash_char (t' +:+ String c "")) .
           simpl in *. rewrite no_space_app. simpl. by rewrite Hc, Hns.
        -- left. by destruct t'.
    + destruct (Ascii.eqb c hash_char && starts_nonspace s) eqn:Hh.
      * apply andb_true_iff in Hh as [->%Ascii.eqb_eq Hs]. apply IH.
        exists EmptyString. split; [done|]. split; [done|]. by right.
      * by apply IH.
Qed.

Lemma string_app_nil (s : string) : s +:+ EmptyString = s.
Proof.
  induction s as [|c s IH]; [done|].
  change (String c (s +:+ EmptyString) = String c s). by f_equal.
Qed.

Lemma findall_from_no_hash pre s :
  no_hash pre = true → findall_from None (pre +:+ s) = findall_from None s.
Proof.
  induction pre as [|c pre IH]; [done|].
  change (String c pre +:+ s) with (String c (pre +:+ s)). simpl.
  intros [Hc Hpre]%andb_true_iff. apply negb_true_iff in Hc. rewrite Hc. simpl. by apply IH.
Qed.

Lemma findall_from_word tok w post :
  no_space w = true → ends_word post = true →
  findall_from (Some tok) (w +:+ post) = (tok +:+ w) :: findall_from None post.
Proof.
  revert tok. induction w as [|c w IH]; intros tok.
  - intros _ Hpost. change (EmptyString +:+ post) with post. rewrite string_app_nil.
    destruct post as [|c post]; simpl in *; [done|].
    rewrite Hpost. f_equal. assert (Ascii.eqb c hash_char = false) as ->; [|done].
    apply Ascii.eqb_neq. intros ->. done.
  - change (String c w +:+ post) with (String c (w +:+ post)). simpl.
    intros [Hc Hw]%andb_true_iff Hpost. apply negb_true_iff in Hc. rewrite Hc.
    rewrite IH by done. by rewrite string_app_assoc.
Qed.

Lemma findall_first_word pre w post :
  no_hash pre = true → w ≠ EmptyString → no_space w = true → ends_word post = true →
  re_findall_hashtags (pre +:+ String hash_char w +:+ post) =
  String hash_char w :: re_findall_hashtags post.
Proof.
  intros Hpre Hne Hw Hpost. unfold re_findall_hashtags.
  rewrite findall_from_no_hash by done.
  change (String hash_char w +:+ post) with (String hash_char (w +:+ post)). simpl.
  assert (starts_nonspace (w +:+ post) = true) as ->.
  { destruct w as [|c w]; [done|]. simpl in *. by apply andb_true_iff in Hw as [-> _]. }
  simpl. by rewrite findall_from_word.
Qed.

(** X7. What [re.findall(r'#\S+', s)] finds: every match is a [#] followed
    by one character or more and has no white space; a text without [#] has
    no match; and a [#] with a word after it, before which there is no other
    [#], is the first match, the scan going on after the word. *)
Theorem hashtags_are_words s :
  Forall is_hashtag (re_findall_hashtags s)
  ∧ (no_hash s = true → re_findall_hashtags s = [])
  ∧ (∀ pre w post,
       s = pre +:+ String hash_char w +:+ post →
       no_hash pre = true → w ≠ EmptyString → no_space w = true → ends_word post = true →
       re_findall_hashtags s = String hash_char w :: re_findall_hashtags post).
Proof.
  split; [by apply findall_from_hashtags|]. split.
  - intros Hs. unfold re_findall_hashtags.
    rewrite <- (string_app_nil s). by rewrite findall_from_no_hash.
  - intros pre w post -> Hpre Hne Hw Hpost. by apply findall_first_word.
Qed.

Lemma hashtags_are_words_witness :
  Forall is_hashtag (re_findall_hashtags "fix #bench near #fountain")
  ∧ re_findall_hashtags "fix #bench near #fountain"
    = "#bench" :: re_findall_hashtags " near #fountain".
Proof.
  destruct (hashtags_are_words "fix #bench near #fountain") as (H1 & _ & H3).
  split; [exact H1|].
  apply (H3 "fix " "bench" " near #fountain"); [reflexivity..| |reflexivity|reflexivity].
  discriminate.
Defined.

(** ** Termination *)

Lemma tree_size_pos n : (1 ≤ tree_size n)%nat.
Proof. destruct n; simpl; lia. Qed.

Lemma pool_size_app d ks1 ks2 : pool_size d (ks1 ++ ks2) = (pool_size d ks1 + pool_size d ks2)%nat.
Proof. apply sum_list_with_app. Qed.

Lemma pool_size_replicate d n k : pool_size d (replicate n k) = (n * tree_size (d - k))%nat.
Proof. induction n as [|n IH]; [done|]. unfold pool_size in *. simpl. by rewrite IH. Qed.

Lemma bootstrap_cells_halved W c : c ∈ bootstrap_cells W → halved 0 c.
Proof.
  intros Hc. pose proof (elem_of_bootstrap_cells W) as Hel.
  destruct (bounds W) as [[[x0 y0] x1] y1].
  destruct (proj1 (Hel x0 y0 x1 y1 c eq_refl) Hc) as (i & j & Hi & Hj & ->).
  by vm_compute.
Qed.

Lemma process_cell_started W c started records :
  process_cell W c = Ok (started, records) →
  started = []
  ∨ (started = split_cell c
     ∧ ∃ l, get_notes W (cell_box c) = Ok l ∧ Z.of_nat (length l) = API_LIMIT).
Proof.
  unfold process_cell. destruct (intersects W (cell_box c)); simpl; [|intros [= <- _]; by left].
  destruct (get_notes W (cell_box c)) as [l|] eqn:Hl; [|done]. simpl.
  destruct (Z.of_nat (length l) =? API_LIMIT) eqn:Hn.
  - intros [= <- _]. right. split; [done|]. exists l. split; [done|]. by apply Z.eqb_eq.
  - destruct (cell_features W l); simpl; [|done]. intros [= <- _]. by left.
Qed.

Section resolution.
Context (W : World) (d : nat).
Hypothesis fine :
  ∀ c l, halved d c → get_notes W (cell_box c) = Ok l → Z.of_nat (length l) ≠ API_LIMIT.

Lemma at_depth_split c k l :
  at_depth d c k → get_notes W (cell_box c) = Ok l → Z.of_nat (length l) = API_LIMIT →
  Forall2 (at_depth d) (split_cell c) (replicate 4 (S k))
  ∧ (pool_size d (replicate 4 (S k)) + 1 = tree_size (d - k))%nat.
Proof.
  intros [Hk Hle] Hl Hn.
  assert (k ≠ d) as Hne by (intros ->; by eapply fine).
  split.
  - assert (∀ child, child ∈ split_cell c → at_depth d child (S k)) as Hch.
    { intros child Hchild. split; [by eapply halved_split|lia]. }
    unfold split_cell in *. simpl.
    do 4 (constructor; [apply Hch; rewrite !elem_of_cons; auto 10|]). constructor.
  - unfold pool_size. simpl. replace (d - k)%nat with (S (d - S k)) by lia. simpl. lia.
Qed.

Lemma step_at_depth pick s s' ks :
  step W pick s = Ok s' → Forall2 (at_depth d) (tasks s) ks →
  ∃ ks', Forall2 (at_depth d) (tasks s') ks'.
Proof.
  unfold step. destruct (tasks s !! pick) as [c|] eqn:Hpick; [|intros [= <-]; eauto].
  destruct (process_cell W c) as [[started records]|] eqn:Hc; [|done]. simpl.
  intros [= <-] Hall. simpl.
  destruct (Forall2_lookup_l _ _ _ _ _ Hall Hpick) as (k & Hk & Hck).
  assert (Forall2 (at_depth d) (delete pick (tasks s)) (delete pick ks)) as Hdel.
  { rewrite !delete_take_drop. apply Forall2_app; [by apply Forall2_take|by apply Forall2_drop]. }
  apply process_cell_started in Hc as [->|[-> (l & Hl & Hn)]].
  - exists (delete pick ks). by rewrite app_nil_r.
  - exists (delete pick ks ++ replicate 4 (S k)). apply Forall2_app; [done|].
    by apply (at_depth_split c k l).
Qed.

Lemma run_at_depth sched s s' ks :
  run_tasks W sched s = Ok s' → Forall2 (at_depth d) (tasks s) ks →
  ∃ ks', Forall2 (at_depth d) (tasks s') ks'.
Proof.
  revert s ks. induction sched as [|pick sched IH]; intros s ks; simpl.
  - intros [= <-]. eauto.
  - destruct (step W pick s) as [s1|] eqn:Hstep; [|done]. simpl.
    intros Hrun Hall. destruct (step_at_depth _ _ _ _ Hstep Hall) as [ks1 H1]. eauto.
Qed.

Lemma fifo_terminates n pool ks fs :
  Forall2 (at_depth d) pool ks → (pool_size d ks ≤ n)%nat →
  (∃ fs', run_tasks W (replicate n 0%nat) (mkRun pool fs) = Ok (mkRun [] fs'))
  ∨ (∃ e, run_tasks W (replicate n 0%nat) (mkRun pool fs) = Raise e).
Proof.
  revert pool ks fs. induction n as [|n IH]; intros pool ks fs Hall Hn.
  - destruct Hall as [|c k pool ks Hck Hall]; [simpl; eauto|].
    unfold pool_size in Hn. simpl in Hn. pose proof (tree_size_pos (d - k)). lia.
  - destruct Hall as [|c k pool ks Hck Hall].
    + simpl. unfold step. simpl. apply (IH [] []); [constructor|]. unfold pool_size. simpl. lia.
    + simpl. unfold step. simpl.
      destruct (process_cell W c) as [[started records]|e] eqn:Hc; simpl; [|eauto].
      unfold pool_size in Hn. simpl in Hn. fold (pool_size d ks) in Hn.
      apply process_cell_started in Hc as [->|[-> (l & Hl & Hlen)]].
      * rewrite app_nil_r. apply (IH pool ks); [done|].
        pose proof (tree_size_pos (d - k)). lia.
      * destruct (at_depth_split c k l Hck Hl Hlen) as [Hch Hsz].
        apply (IH _ (ks ++ replicate 4 (S k))); [by apply Forall2_app|].
        rewrite pool_size_app. lia.
Qed.

Lemma bootstrap_at_depth :
  Forall2 (at_depth d) (bootstrap_cells W) (replicate (length (bootstrap_cells W)) 0%nat).
Proof.
  apply Forall2_same_length_lookup_2; [by rewrite length_replicate|].
  intros i c k Hc [-> _]%lookup_replicate. split; [|lia].
  apply list_elem_of_lookup_2 in Hc. by apply (bootstrap_cells_halved W).
Qed.
End resolution.

(** X8. Termination. When no query for a cell of [INIT_CELL_SIZE] halved
    [d] times returns as many notes as the limit, no cell is split more
    than [d] times and the run ends: with the tasks run first in, first
    out, [main] has saved or failed after (4^(d+1) - 1) / 3 tasks for each
    cell of the bootstrap, at most; and every run, whatever tasks it ran
    first, is completed by running the remaining tasks. *)
Theorem fine_cells_finish W d :
  (∀ c l, halved d c → get_notes W (cell_box c) = Ok l → Z.of_nat (length l) ≠ API_LIMIT) →
  main W (replicate (length (bootstrap_cells W) * tree_size d) 0%nat) ≠ Unfinished
  ∧ ∀ schedule, ∃ n, main W (schedule ++ replicate n 0%nat) ≠ Unfinished.
Proof.
  intros Hfine.
  assert (Hend : ∀ n s ks, Forall2 (at_depth d) (tasks s) ks → (pool_size d ks ≤ n)%nat →
            match run_tasks W (replicate n 0%nat) s with
            | Ok s' => tasks s' = []
            | Raise _ => True
            end).
  { intros n [pool fs] ks Hall Hn.
    by destruct (fifo_terminates W d Hfine n pool ks fs Hall Hn) as [[fs' ->]|[e ->]]. }
  assert (Hmain : ∀ sched, match run_tasks W sched (mkRun (bootstrap_cells W) []) with
                            | Ok s' => tasks s' = []
                            | Raise _ => True
                            end → main W sched ≠ Unfinished).
  { intros sched. unfold main.
    destruct (run_tasks W sched _) as [s'|]; [|done]. intros ->.
    by destruct (save_result (features s')). }
  split.
  - apply Hmain. apply (Hend _ _ (replicate (length (bootstrap_cells W)) 0%nat)).
    + apply bootstrap_at_depth.
    + rewrite pool_size_replicate. by rewrite Nat.sub_0_r.
  - intros schedule.
    destruct (run_tasks W schedule (mkRun (bootstrap_cells W) [])) as [s|e] eqn:Hrun.
    + destruct (run_at_depth W d Hfine _ _ _ _ Hrun (bootstrap_at_depth W d)) as [ks Hks].
      exists (pool_size d ks). apply Hmain. rewrite run_tasks_app, Hrun. simpl.
      by apply (Hend _ _ ks).
    + exists 0%nat. apply Hmain. by rewrite run_tasks_app, Hrun.
Qed.

Lemma fine_cells_finish_witness :
  (∀ c l, halved 0 c → get_notes edge_world (cell_box c) = Ok l →
          Z.of_nat (length l) ≠ API_LIMIT)
  ∧ main edge_world (replicate (length (bootstrap_cells edge_world) * tree_size 0) 0%nat)
    ≠ Unfinished.
Proof.
  assert (H : ∀ c l, halved 0 c → get_notes edge_world (cell_box c) = Ok l →
                     Z.of_nat (length l) ≠ API_LIMIT).
  { intros c l _ Hl. unfold edge_world, rectangle_world, notes_in in Hl. simpl in Hl.
    injection Hl as <-. rewrite length_take.
    match goal with |- context [filter ?P ?l] => pose proof (length_filter P l) as Hf end.
    simpl length in Hf. unfold API_LIMIT. lia. }
  split; [exact H|]. exact (proj1 (fine_cells_finish edge_world 0 H)).
Defined.

(** ** What a call of [process_feature] leaves alone *)

Lemma keeps_reads_bind {A B} feature (m : M A) (f : A → M B) :
  keeps_reads feature m → (∀ a, keeps_reads feature (f a)) → keeps_reads feature (m ≫= f).
Proof.
  intros Hm Hf σ Hσ. unfold mbind, M_bind. specialize (Hm σ Hσ).
  destruct (m σ) as [[a|e] σ1]; simpl in *; [by apply Hf|done].
Qed.

Lemma keeps_reads_lift {A} feature (r : result A) : keeps_reads feature (lift r).
Proof. by intros σ Hσ. Qed.

Lemma keeps_reads_the_feature feature : keeps_reads feature the_feature.
Proof. by intros σ Hσ. Qed.

Lemma keeps_reads_get_prop feature k : keeps_reads feature (get_prop k).
Proof.
  unfold get_prop. apply keeps_reads_bind; [apply keeps_reads_the_feature|].
  intros a. apply keeps_reads_bind; intros; apply keeps_reads_lift.
Qed.

Lemma keeps_reads_update feature (f : val → result val) k0 :
  k0 ∈ touched →
  (∀ p p' k, f p = Ok p' → k ≠ k0 → getitem p' k = getitem p k) →
  keeps_reads feature (update_properties f).
Proof.
  intros Hk0 Hf σ [H1 H2]. unfold update_properties.
  destruct σ as [| | | | | |fd]; try done.
  destruct (fd !! "properties") as [properties|] eqn:Hp; [|done].
  destruct (f properties) as [properties'|] eqn:Hfp; [|done]. simpl. split.
  - intros k Hk. rewrite <- H1 by done. simpl. by rewrite lookup_insert_ne.
  - intros k Hk. rewrite <- H2 by done.
    unfold get_prop, the_feature, lift, mbind, M_bind. simpl.
    rewrite lookup_insert_eq, Hp. simpl. eapply Hf; [done|]. by intros ->.
Qed.

Lemma keeps_reads_set_prop feature k0 x : k0 ∈ touched → keeps_reads feature (set_prop k0 x).
Proof.
  intros Hk0. apply (keeps_reads_update _ _ k0 Hk0).
  intros [| | | | | |d] p' k; try done. simpl. intros [= <-] Hk. simpl. by rewrite lookup_insert_ne.
Qed.

Lemma keeps_reads_del_prop feature k0 : k0 ∈ touched → keeps_reads feature (del_prop k0).
Proof.
  intros Hk0. apply (keeps_reads_update _ _ k0 Hk0).
  intros [| | | | | |d] p' k; try done. simpl.
  destruct (d !! k0); [|done]. intros [= <-] Hk. simpl. by rewrite lookup_delete_ne.
Qed.

Lemma keeps_reads_process_feature si feature : keeps_reads feature (process_feature si).
Proof.
  unfold process_feature.
  repeat first
    [ apply keeps_reads_bind; [|intros ?]
    | apply keeps_reads_get_prop
    | apply keeps_reads_lift
    | apply keeps_reads_the_feature
    | apply keeps_reads_set_prop; unfold touched; set_solver
    | apply keeps_reads_del_prop; unfold touched; set_solver ].
Qed.

(** X9. A call of [process_feature], whether it returns or raises, leaves
    every key of the feature other than ['properties'], and every property
    other than the eight that it assigns or deletes, as it was. When the
    first statement raises (no properties, no comments, an empty list of
    comments), the call raises that exception and the feature is
    unchanged. *)
Theorem process_feature_touches_only si feature res σ' :
  process_feature si feature = (res, σ') →
  (∀ k, k ≠ "properties" → getitem σ' k = getitem feature k)
  ∧ (∀ k, k ∉ touched → (get_prop k σ').1 = (get_prop k feature).1)
  ∧ (∀ e, (comments ← (get_prop "comments" feature).1; getitem0 comments) = Raise e →
          res = Raise e ∧ σ' = feature).
Proof.
  intros Hpf.
  assert (Hk : same_reads feature (process_feature si feature).2).
  { by apply keeps_reads_process_feature. }
  rewrite Hpf in Hk. destruct Hk as [H1 H2]. split; [done|]. split; [done|].
  intros e He. revert Hpf. unfold process_feature.
  unfold mbind at 1, M_bind at 1.
  assert (Hg : ∀ k, (get_prop k feature).2 = feature).
  { intros k. unfold get_prop, the_feature, lift, mbind, M_bind.
    by destruct (getitem feature "properties"). }
  specialize (Hg "comments").
  destruct (get_prop "comments" feature) as [[comments|e'] σ1]; simpl in *; subst σ1.
  - unfold mbind at 1, M_bind at 1, lift at 1. rewrite He. by intros [= <- <-].
  - injection He as ->. by intros [= <- <-].
Qed.

Lemma process_feature_touches_only_witness :
  process_feature first_seen undated_note
  = (Raise ValueError,
     with_properties (note_dict 7 1 2 [VDict (comment_dict "a #b" "soon")])
       (<["tags" := VStr "#b"]> (<["text" := VStr "a #b"]> (<["user" := VStr "FredB"]>
          (note_properties 7 [VDict (comment_dict "a #b" "soon")])))))
  ∧ (get_prop "id"
       (with_properties (note_dict 7 1 2 [VDict (comment_dict "a #b" "soon")])
          (<["tags" := VStr "#b"]> (<["text" := VStr "a #b"]> (<["user" := VStr "FredB"]>
             (note_properties 7 [VDict (comment_dict "a #b" "soon")])))))).1
    = (get_prop "id" undated_note).1.
Proof.
  assert (H : process_feature first_seen undated_note
    = (Raise ValueError,
       with_properties (note_dict 7 1 2 [VDict (comment_dict "a #b" "soon")])
         (<["tags" := VStr "#b"]> (<["text" := VStr "a #b"]> (<["user" := VStr "FredB"]>
            (note_properties 7 [VDict (comment_dict "a #b" "soon")]))))))
    by (vm_compute; reflexivity).
  split; [exact H|].
  apply (proj1 (proj2 (process_feature_touches_only _ _ _ _ H))).
  unfold touched. rewrite !not_elem_of_cons. repeat split; try done. apply not_elem_of_nil.
Defined.

(** ** The year *)

Lemma lstrip_length s : (length (lstrip s) ≤ length s)%nat.
Proof. induction s as [|c s IH]; simpl; [done|]. destruct (int_space c); simpl; lia. Qed.

Lemma strip_length s : (length (strip s) ≤ length s)%nat.
Proof.
  unfold strip. rewrite length_rev.
  etrans; [apply lstrip_length|]. rewrite length_rev. apply lstrip_length.
Qed.

Lemma str_take_length n s : (length (String.list_ascii_of_string (str_take n s)) ≤ n)%nat.
Proof.
  revert s. induction n as [|n IH]; intros [|c s]; simpl; try lia.
  specialize (IH s). unfold str_take in *. simpl. lia.
Qed.

Lemma digit_of_range c d : digit_of c = Some d → 0 ≤ d ≤ 9.
Proof.
  unfold digit_of. destruct (_ && _)%N eqn:H; [|done]. intros [= <-].
  apply andb_true_iff in H as [H1%N.leb_le H2%N.leb_le]. lia.
Qed.

Lemma parse_digits_range s acc after_digit z :
  0 ≤ acc → parse_digits acc after_digit s = Some z →
  0 ≤ z < (acc + 1) * 10 ^ Z.of_nat (length s).
Proof.
  revert acc after_digit. induction s as [|c s IH]; intros acc after_digit Hacc;
    cbn [parse_digits length].
  - destruct after_digit; [|done]. intros [= <-]. simpl. lia.
  - rewrite Nat2Z.inj_succ, Z.pow_succ_r by lia.
    destruct (digit_of c) as [d|] eqn:Hd.
    + apply digit_of_range in Hd. intros Hz. apply IH in Hz; [|lia]. nia.
    + destruct (_ && _); [|done]. intros Hz. apply IH in Hz; [|lia].
      assert (0 < 10 ^ Z.of_nat (length s)) by (apply Z.pow_pos_nonneg; lia). nia.
Qed.

Lemma int_of_string_range s z n :
  int_of_string s = Some z → (length (String.list_ascii_of_string s) ≤ S n)%nat →
  - 10 ^ Z.of_nat n < z < 10 ^ Z.of_nat (S n).
Proof.
  unfold int_of_string. intros Hz Hlen.
  pose proof (strip_length (String.list_ascii_of_string s)) as Hs.
  destruct (strip (String.list_ascii_of_string s)) as [|c s'] eqn:Hst; [done|].
  simpl in Hs.
  assert (10 ^ Z.of_nat (length s') ≤ 10 ^ Z.of_nat n) as Hpow.
  { apply Z.pow_le_mono_r; lia. }
  assert (10 ^ Z.of_nat (S n) = 10 * 10 ^ Z.of_nat n) as Hpow'.
  { rewrite Nat2Z.inj_succ, Z.pow_succ_r; lia. }
  assert (0 < 10 ^ Z.of_nat n) by (apply Z.pow_pos_nonneg; lia).
  destruct (Ascii.eqb c "+").
  { apply parse_digits_range in Hz; lia. }
  destruct (Ascii.eqb c "-").
  { destruct (parse_digits 0 false s') as [z'|] eqn:Hz'; [|done]. injection Hz as <-.
    apply parse_digits_range in Hz'; lia. }
  apply parse_digits_range in Hz; [|lia]. simpl length in Hz.
  assert (10 ^ Z.of_nat (S (length s')) ≤ 10 ^ Z.of_nat (S n)); [|lia].
  apply Z.pow_le_mono_r; lia.
Qed.

Lemma year_range date prefix year :
  slice_to_4 date = Ok prefix → py_int prefix = Ok year → -999 ≤ year ≤ 9999.
Proof.
  destruct date as [| | | |s|l|]; try done; simpl; intros [= <-]; [|done].
  simpl. destruct (int_of_string (str_take 4 s)) as [z|] eqn:Hz; [|done]. intros [= <-].
  apply (int_of_string_range _ _ 3) in Hz; [|apply str_take_length].
  change (10 ^ Z.of_nat 3) with 1000 in Hz. change (10 ^ Z.of_nat 4) with 10000 in Hz. lia.
Qed.

(** ** The records of a run *)

Lemma cell_features_normalized W cell_result records :
  cell_features W cell_result = Ok records → Forall (normalized W) records.
Proof.
  intros [_ H]%cell_features_filter_map.
  assert (Hf : Forall (λ feature, wanted W feature = Ok true)
                 (filter (λ feature, is_wanted W feature = true) cell_result)).
  { apply Forall_forall. intros feature [Hw _]%list_elem_of_filter.
    unfold is_wanted in Hw. by destruct (wanted W feature) as [[]|]. }
  induction H as [|feature r l rs Hr H IH]; [constructor|].
  apply Forall_cons in Hf as [Hw Hf]. constructor; [by exists feature|by apply IH].
Qed.

Lemma step_normalized W pick s s' :
  step W pick s = Ok s' → Forall (normalized W) (features s) →
  Forall (normalized W) (features s').
Proof.
  unfold step. destruct (tasks s !! pick) as [c|]; [|by intros [= <-]].
  destruct (process_cell W c) as [[started records]|] eqn:Hc; [|done]. simpl.
  intros [= <-] Hall. simpl. apply Forall_app. split; [done|].
  unfold process_cell in Hc. destruct (intersects W (cell_box c)); simpl in Hc;
    [|injection Hc as <- <-; constructor].
  destruct (get_notes W (cell_box c)) as [l|]; [|done]. simpl in Hc.
  destruct (Z.of_nat (length l) =? API_LIMIT); [injection Hc as <- <-; constructor|].
  destruct (cell_features W l) as [rs|] eqn:Hcf; simpl in Hc; [|done].
  injection Hc as <- <-. by eapply cell_features_normalized.
Qed.

Lemma run_tasks_normalized W sched s s' :
  run_tasks W sched s = Ok s' → Forall (normalized W) (features s) →
  Forall (normalized W) (features s').
Proof.
  revert s. induction sched as [|pick sched IH]; intros s; simpl.
  - by intros [= <-].
  - destruct (step W pick s) as [s1|] eqn:Hs; simpl; [|done].
    intros Hrun H. eapply IH; [done|]. by eapply step_normalized.
Qed.

Lemma feature_id_with_properties fd pd k :
  feature_id (with_properties fd pd) = Ok k → pd !! "id" = Some (VInt k).
Proof.
  unfold feature_id, with_properties. simpl. rewrite lookup_insert_eq. simpl.
  destruct (pd !! "id") as [[]|]; simpl; congruence.
Qed.

(** X10. Every record of a saved collection has an [id], a [user], a
    string as [text], the hashtags of that text joined by spaces as [tags]
    and an integer from -999 to 9999 as [year] (four characters of a date,
    at most); it has no [url], [comment_url], [close_url] or [comments]. *)
Theorem saved_records_schema W schedule collection :
  main W schedule = Saved collection →
  Forall (λ r, ∃ fd pd id user text year,
            r = with_properties fd pd
            ∧ pd !! "id" = Some id ∧ pd !! "user" = Some user
            ∧ pd !! "text" = Some (VStr text)
            ∧ pd !! "tags" = Some (VStr (str_join " " (set_iter W (re_findall_hashtags text))))
            ∧ pd !! "year" = Some (VInt year) ∧ -999 ≤ year ≤ 9999
            ∧ pd !! "url" = None ∧ pd !! "comment_url" = None
            ∧ pd !! "close_url" = None ∧ pd !! "comments" = None)
    collection.
Proof.
  unfold main.
  destruct (run_tasks W schedule (mkRun (bootstrap_cells W) [])) as [s|] eqn:Hrun; [|done].
  destruct (tasks s); [|done].
  destruct (save_result (features s)) as [out|] eqn:Hsave; [|done]. intros [= <-].
  apply run_tasks_normalized in Hrun; [|constructor].
  unfold save_result in Hsave.
  rewrite <- (sorted_by_id_perm _ _ Hsave) in Hrun.
  rewrite Forall_forall in Hrun |- *. intros r Hr.
  pose proof (sorted_by_id_ids _ _ _ Hsave Hr) as Hid.
  destruct (Hrun r Hr) as (feature & _ & Hpf).
  apply process_feature_Ok_inv in Hpf
    as (fd & pd & comments & first_comment & pd' & -> & _ & _ & _ & Hn & ->).
  apply feature_id_with_properties in Hid.
  apply normalized_properties_Ok in Hn
    as (cd & text & date & year & -> & Ht & Hd & Hy & _ & _ & _ & ->).
  destruct (slice_to_4 date) as [prefix|] eqn:Hs; [|done]. simpl in Hy.
  pose proof (year_range _ _ _ Hs Hy) as Hrange.
  destruct (updated_properties_set pd (default (VStr "anonymous") (cd !! "user")) (VStr text)
              (VStr (str_join " " (set_iter W (re_findall_hashtags text)))) year)
    as (Hu & Htx & Htg & Hyr).
  destruct (updated_properties_deleted pd (default (VStr "anonymous") (cd !! "user"))
              (VStr text) (VStr (str_join " " (set_iter W (re_findall_hashtags text)))) year)
    as (H1 & H2 & H3 & H4).
  eexists fd, _, (VInt (id_or_0 _)), _, text, year. split; [reflexivity|].
  split; [exact Hid|]. split; [exact Hu|]. split; [exact Htx|]. split; [exact Htg|].
  split; [exact Hyr|]. split; [exact Hrange|]. auto.
Qed.

Lemma saved_records_schema_witness :
  main two_cell_world [0%nat; 0%nat]
  = Saved [record 1 4 2 "bench" ""; record 1 4 2 "bench" ""]
  ∧ Forall (λ r, ∃ fd pd id user text year,
              r = with_properties fd pd
              ∧ pd !! "id" = Some id ∧ pd !! "user" = Some user
              ∧ pd !! "text" = Some (VStr text)
              ∧ pd !! "tags"
                = Some (VStr (str_join " "
                                (set_iter two_cell_world (re_findall_hashtags text))))
              ∧ pd !! "year" = Some (VInt year) ∧ -999 ≤ year ≤ 9999
              ∧ pd !! "url" = None ∧ pd !! "comment_url" = None
              ∧ pd !! "close_url" = None ∧ pd !! "comments" = None)
      [record 1 4 2 "bench" ""; record 1 4 2 "bench" ""].
Proof.
  assert (H : main two_cell_world [0%nat; 0%nat]
              = Saved [record 1 4 2 "bench" ""; record 1 4 2 "bench" ""])
    by (vm_compute; reflexivity).
  split; [exact H|]. exact (saved_records_schema two_cell_world _ _ H).
Defined.

(** ** [_save_result] *)

Lemma insert_by_key_stable k x l :
  filter (λ y : Z * val, y.1 = k) (insert_by_key x l) = filter (λ y, y.1 = k) (x :: l).
Proof.
  induction l as [|y l IH]; simpl; [done|].
  destruct (Z.leb_spec x.1 y.1) as [Hle|Hgt]; [done|].
  rewrite (filter_cons _ y), IH, !filter_cons.
  destruct (decide (y.1 = k)), (decide (x.1 = k)); try done. lia.
Qed.

Lemma sort_by_key_stable k l :
  filter (λ y : Z * val, y.1 = k) (foldr insert_by_key [] l) = filter (λ y, y.1 = k) l.
Proof.
  induction l as [|x l IH]; simpl; [done|].
  by rewrite insert_by_key_stable, !filter_cons, IH.
Qed.

Lemma sort_by_key_of_sorted l : StronglySorted key_le l → foldr insert_by_key [] l = l.
Proof.
  induction 1 as [|x l Hs IH Hx]; simpl; [done|]. rewrite IH.
  destruct Hx as [|y l Hy _]; simpl; [done|].
  unfold key_le in Hy. by destruct (Z.leb_spec x.1 y.1); [|lia].
Qed.

Lemma with_keys_intro l :
  Forall (λ f, ∃ k, feature_id f = Ok k) l → with_keys l = Ok ((λ f, (id_or_0 f, f)) <$> l).
Proof.
  induction 1 as [|f l [k Hk] _ IH]; simpl; [done|].
  unfold id_or_0 at 1. by rewrite Hk, IH.
Qed.

Lemma sorted_keyed (l : list val) :
  StronglySorted id_le l → StronglySorted key_le ((λ f, (id_or_0 f, f)) <$> l).
Proof.
  induction 1 as [|f l Hs IH Hf]; simpl; [constructor|]. constructor; [done|].
  rewrite Forall_fmap. eapply Forall_impl; [done|]. by intros g Hg.
Qed.

Lemma filter_keyed k (kl : list (Z * val)) :
  Forall (λ p, p.1 = id_or_0 p.2) kl →
  filter (λ r, id_or_0 r = k) kl.*2 = (filter (λ p : Z * val, p.1 = k) kl).*2.
Proof.
  induction 1 as [|p kl Hp _ IH]; [done|].
  rewrite fmap_cons, !filter_cons, IH. rewrite <- Hp.
  by destruct (decide (p.1 = k)).
Qed.

(** X11. The collection that [_save_result] writes has the records of
    [features], in ascending order of [id]; records with the same [id] keep
    the order they had in [features] (the sort is stable); and saving the
    saved collection again gives the same collection. *)
Theorem save_result_sorts l out :
  save_result l = Ok out →
  out ≡ₚ l
  ∧ StronglySorted id_le out
  ∧ (∀ k, filter (λ r, id_or_0 r = k) out = filter (λ r, id_or_0 r = k) l)
  ∧ save_result out = Ok out.
Proof.
  intros Hs. unfold save_result in *.
  pose proof (sorted_by_id_perm _ _ Hs) as Hperm.
  pose proof (sorted_by_id_sorted _ _ Hs) as Hsorted.
  split; [done|]. split; [done|]. split.
  - intros k. unfold sorted_by_id in Hs.
    destruct (with_keys l) as [kl|] eqn:Hk; [|done]. injection Hs as <-.
    apply with_keys_Ok in Hk as ->.
    assert (Hkeys : Forall (λ p : Z * val, p.1 = id_or_0 p.2) ((λ f, (id_or_0 f, f)) <$> l)).
    { by apply Forall_fmap, Forall_true. }
    rewrite filter_keyed by (by rewrite sort_by_key_perm).
    rewrite sort_by_key_stable, <- filter_keyed by done. by rewrite snd_keyed.
  - unfold sorted_by_id. rewrite with_keys_intro.
    + simpl. rewrite sort_by_key_of_sorted by (by apply sorted_keyed).
      by rewrite snd_keyed.
    + apply Forall_forall. intros r Hr. eexists. by eapply sorted_by_id_ids.
Qed.

Lemma save_result_sorts_witness :
  save_result [record 3 1 1 "c" ""; record 1 1 1 "a" ""; record 3 2 2 "d" ""]
  = Ok [record 1 1 1 "a" ""; record 3 1 1 "c" ""; record 3 2 2 "d" ""]
  ∧ StronglySorted id_le [record 1 1 1 "a" ""; record 3 1 1 "c" ""; record 3 2 2 "d" ""]
  ∧ save_result [record 1 1 1 "a" ""; record 3 1 1 "c" ""; record 3 2 2 "d" ""]
    = Ok [record 1 1 1 "a" ""; record 3 1 1 "c" ""; record 3 2 2 "d" ""].
Proof.
  assert (H : save_result [record 3 1 1 "c" ""; record 1 1 1 "a" ""; record 3 2 2 "d" ""]
              = Ok [record 1 1 1 "a" ""; record 3 1 1 "c" ""; record 3 2 2 "d" ""])
    by (vm_compute; reflexivity).
  destruct (save_result_sorts _ _ H) as (_ & Hs & _ & Hi).
  split; [exact H|]. split; [exact Hs|exact Hi].
Defined.

(** ** The grid of the bootstrap, from inside *)

Lemma range_nonpos n : n ≤ 0 → range n = [].
Proof. intros Hn. unfold range. by replace (Z.to_nat n) with 0%nat by lia. Qed.

Lemma NoDup_range n : NoDup (range n).
Proof. unfold range. apply NoDup_fmap_2; [|apply NoDup_seq]. intros ???; lia. Qed.

Lemma length_range n : length (range n) = Z.to_nat n.
Proof. unfold range. by rewrite length_fmap, length_seq. Qed.

Lemma grid_step_inj (lo : Q) (i j : Z) :
  (lo + inject_Z i * INIT_CELL_SIZE)%Q = (lo + inject_Z j * INIT_CELL_SIZE)%Q → i = j.
Proof.
  unfold INIT_CELL_SIZE. intros H.
  assert (lo + inject_Z i * 4 == lo + inject_Z j * 4)%Q as Heq by (by rewrite H).
  apply inject_Z_injective. lra.
Qed.

Lemma grid_step_within (lo hi : Q) (i : Z) :
  0 ≤ i < Qceiling ((hi - lo) / INIT_CELL_SIZE) →
  (lo <= lo + inject_Z i * INIT_CELL_SIZE)%Q ∧ (lo + inject_Z i * INIT_CELL_SIZE < hi)%Q.
Proof.
  unfold INIT_CELL_SIZE, Qdiv. change (/ 4)%Q with (1 # 4)%Q.
  pose proof (Qceiling_lt ((hi - lo) * (1 # 4))) as Hc.
  generalize dependent (Qceiling ((hi - lo) * (1 # 4))). intros n Hc [Hi0 Hi1].
  assert (0 <= inject_Z i)%Q by (rewrite <- (Zle_Qle 0); lia).
  assert (inject_Z i <= inject_Z (n - 1))%Q by (rewrite <- Zle_Qle; lia).
  split; lra.
Qed.

Lemma length_bind_const {A B} (f : A → list B) (l : list A) m :
  (∀ x, length (f x) = m) → length (l ≫= f) = (length l * m)%nat.
Proof.
  intros Hf. induction l as [|x l IH]; [done|].
  rewrite bind_cons, length_app, IH, Hf. simpl. lia.
Qed.

Lemma run_tasks_idle W schedule fs :
  run_tasks W schedule (mkRun [] fs) = Ok (mkRun [] fs).
Proof. induction schedule as [|pick schedule IH]; [done|]. simpl. by rewrite IH. Qed.

(** X12. The grid of the bootstrap is no larger than needed: every cell has
    the initial size and its origin in the bounds of the country, short of
    the upper bounds; no cell is started twice and no point is strictly
    inside two cells; there are ceil(width / 4) * ceil(height / 4) cells.
    Bounds without width or without height give no cell at all: [main]
    makes no request and saves an empty collection. *)
Theorem bootstrap_grid_tight W min_lon min_lat max_lon max_lat :
  bounds W = (min_lon, min_lat, max_lon, max_lat) →
  (∀ c, c ∈ bootstrap_cells W →
     size c = INIT_CELL_SIZE
     ∧ (min_lon <= lon c)%Q ∧ (lon c < max_lon)%Q
     ∧ (min_lat <= lat c)%Q ∧ (lat c < max_lat)%Q)
  ∧ NoDup (bootstrap_cells W)
  ∧ (∀ c c' x y, c ∈ bootstrap_cells W → c' ∈ bootstrap_cells W →
       inside_box (cell_box c) x y → inside_box (cell_box c') x y → c = c')
  ∧ length (bootstrap_cells W) =
      (Z.to_nat (Qceiling ((max_lon - min_lon) / INIT_CELL_SIZE))
       * Z.to_nat (Qceiling ((max_lat - min_lat) / INIT_CELL_SIZE)))%nat
  ∧ ((max_lon <= min_lon)%Q ∨ (max_lat <= min_lat)%Q →
     bootstrap_cells W = [] ∧ ∀ schedule, main W schedule = Saved []).
Proof.
  intros HW.
  pose proof (λ c, elem_of_bootstrap_cells W min_lon min_lat max_lon max_lat c HW) as Hel.
  split; [|split; [|split; [|split]]].
  - intros c (i & j & Hi & Hj & ->)%Hel. simpl.
    destruct (grid_step_within min_lon max_lon i Hi).
    destruct (grid_step_within min_lat max_lat j Hj). done.
  - unfold bootstrap_cells. rewrite HW. apply NoDup_bind.
    + intros x1 x2 c _ _ (? & ->%list_elem_of_singleton & _)%list_elem_of_bind
        (? & Hc%list_elem_of_singleton & _)%list_elem_of_bind. by injection Hc.
    + intros lo _. apply NoDup_bind.
      * intros y1 y2 c _ _ ->%list_elem_of_singleton Hc%list_elem_of_singleton.
        by injection Hc.
      * intros. apply NoDup_singleton.
      * apply NoDup_fmap_2; [|apply NoDup_range]. intros i j. apply grid_step_inj.
    + apply NoDup_fmap_2; [|apply NoDup_range]. intros i j. apply grid_step_inj.
  - intros c c' x y (i & j & _ & _ & ->)%Hel (i' & j' & _ & _ & ->)%Hel.
    unfold inside_box, cell_box, INIT_CELL_SIZE. simpl.
    intros (? & ? & ? & ?) (? & ? & ? & ?).
    assert (i = i') as ->.
    { assert (inject_Z i < inject_Z (i' + 1))%Q
        by (rewrite inject_Z_plus; change (inject_Z 1) with 1%Q; lra).
      assert (inject_Z i' < inject_Z (i + 1))%Q
        by (rewrite inject_Z_plus; change (inject_Z 1) with 1%Q; lra).
      rewrite <- Zlt_Qlt in *. lia. }
    assert (j = j') as ->; [|done].
    assert (inject_Z j < inject_Z (j' + 1))%Q
      by (rewrite inject_Z_plus; change (inject_Z 1) with 1%Q; lra).
    assert (inject_Z j' < inject_Z (j + 1))%Q
      by (rewrite inject_Z_plus; change (inject_Z 1) with 1%Q; lra).
    rewrite <- Zlt_Qlt in *. lia.
  - unfold bootstrap_cells. rewrite HW.
    rewrite (length_bind_const _ _
      (Z.to_nat (Qceiling ((max_lat - min_lat) / INIT_CELL_SIZE)))).
    + by rewrite length_fmap, length_range.
    + intros lo. rewrite (length_bind_const _ _ 1%nat) by done.
      rewrite length_fmap, length_range. lia.
  - intros Hdeg.
    assert (Hnil : bootstrap_cells W = []).
    { assert (∀ lo hi : Q, (hi <= lo)%Q → range (Qceiling ((hi - lo) / INIT_CELL_SIZE)) = [])
        as Hr.
      { intros lo hi Hle. apply range_nonpos.
        change 0 with (Qceiling 0). apply Qceiling_resp_le.
        unfold INIT_CELL_SIZE, Qdiv. change (/ 4)%Q with (1 # 4)%Q. lra. }
      unfold bootstrap_cells. rewrite HW. destruct Hdeg as [Hlon|Hlat].
      - by rewrite (Hr _ _ Hlon).
      - rewrite (Hr _ _ Hlat). simpl.
        by induction (_ <$> range _) as [|? ? IH]. }
    split; [done|]. intros schedule. unfold main. by rewrite Hnil, run_tasks_idle.
Qed.

Lemma bootstrap_grid_tight_witness :
  bounds two_cell_world = (0, 0, 8, 4)%Q
  ∧ NoDup (bootstrap_cells two_cell_world)
  ∧ length (bootstrap_cells two_cell_world)
    = (Z.to_nat (Qceiling ((8 - 0) / INIT_CELL_SIZE))
       * Z.to_nat (Qceiling ((4 - 0) / INIT_CELL_SIZE)))%nat.
Proof.
  destruct (bootstrap_grid_tight two_cell_world 0 0 8 4 eq_refl) as (_ & Hnd & _ & Hlen & _).
  split; [reflexivity|]. split; [exact Hnd|exact Hlen].
Defined.

(** ** The identifier of a record *)

Lemma feature_id_get_prop f :
  feature_id f = (id ← (get_prop "id" f).1;
                  match id with VInt z => Ok z | _ => Raise TypeError end).
Proof.
  unfold feature_id, get_prop, the_feature, lift, mbind, M_bind, result_bind.
  by destruct (getitem f "properties").
Qed.

Lemma process_feature_keeps_id si feature r :
  process_feature_result si feature = Ok r → feature_id r = feature_id feature.
Proof.
  unfold process_feature_result. intros Hr.
  destruct (process_feature si feature) as [res σ'] eqn:Hpf. simpl in Hr. subst res.
  pose proof (process_feature_state _ _ _ _ Hpf) as ->.
  pose proof (keeps_reads_process_feature si feature feature) as Hk.
  rewrite Hpf in Hk. destruct Hk as [_ Hk]; [done|].
  rewrite !feature_id_get_prop, Hk; [done|].
  unfold touched. rewrite !not_elem_of_cons. repeat split; try done. apply not_elem_of_nil.
Qed.

(** X13. [process_feature] does not give a record an [id], and the sort of
    [_save_result] reads it: with an API that answers with the notes of the
    box up to the limit, one note without [id] that has a comment and that
    the country contains is enough for no run to end with a file. *)
Theorem note_without_id_no_file W dataset min_lon min_lat max_lon max_lat feature x y :
  (∀ b, get_notes W b = notes_in dataset b) →
  sound_country W →
  bounds W = (min_lon, min_lat, max_lon, max_lat) →
  (min_lon < max_lon)%Q → (min_lat < max_lat)%Q →
  feature ∈ dataset → feature_point feature = Some (x, y) →
  wanted W feature = Ok true →
  feature_id feature = Raise KeyError →
  ∀ schedule, main W schedule = Unfinished ∨ ∃ e, main W schedule = Failed e.
Proof.
  intros Hapi Hsound HW Hlon Hlat Hin Hpt Hw Hid schedule.
  unfold main.
  destruct (run_tasks W schedule (mkRun (bootstrap_cells W) [])) as [s|e] eqn:Hrun; [|eauto].
  destruct (tasks s) eqn:Hend; [|by left]. right.
  destruct (save_result (features s)) as [out|e] eqn:Hsave; [|eauto]. exfalso.
  destruct (run_tasks_harvest W _ _ _ Hrun Hend) as (records & Hh & Hperm). simpl in *.
  destruct (harvest_covers W dataset Hapi Hsound _ _ feature x y Hh Hin Hpt Hw)
    as (r & Hr & Hel).
  - destruct (wanted_true W _ Hw) as (? & ? & g & _ & _ & _ & Hg & Hcontains).
    assert (Hpg : point_of_geometry g = Some (x, y)).
    { unfold feature_point in Hpt. by rewrite Hg in Hpt. }
    destruct (Hsound g x y Hpg Hcontains) as [Hb _].
    unfold bounds_box in Hb. rewrite HW in Hb.
    destruct (bootstrap_cells_cover W _ _ _ _ x y HW Hlon Hlat Hb) as (c & Hc & _ & Hbox).
    eauto.
  - assert (Hout : r ∈ out).
    { apply sorted_by_id_perm in Hsave. by rewrite Hsave, Hperm. }
    pose proof (sorted_by_id_ids _ _ _ Hsave Hout) as Hrid.
    rewrite (process_feature_keeps_id _ _ _ Hr) in Hrid. congruence.
Qed.

Lemma note_without_id_no_file_witness :
  wanted nameless_world note_without_id = Ok true
  ∧ feature_id note_without_id = Raise KeyError
  ∧ (main nameless_world [0%nat] = Unfinished ∨ ∃ e, main nameless_world [0%nat] = Failed e).
Proof.
  assert (H1 : ∀ b, get_notes nameless_world b = notes_in [note_without_id] b)
    by (intros b; reflexivity).
  assert (H2 : sound_country nameless_world) by apply rectangle_world_sound.
  assert (H3 : note_without_id ∈ [note_without_id]) by apply list_elem_of_here.
  assert (H4 : feature_point note_without_id = Some (1, 2)%Q) by reflexivity.
  assert (H5 : wanted nameless_world note_without_id = Ok true) by (vm_compute; reflexivity).
  assert (H6 : feature_id note_without_id = Raise KeyError) by (vm_compute; reflexivity).
  split; [exact H5|]. split; [exact H6|].
  exact (note_without_id_no_file nameless_world [note_without_id] 0 0 4 4 note_without_id 1 2
           H1 H2 eq_refl eq_refl eq_refl H3 H4 H5 H6 [0%nat])%Q.
Defined.

(** ** The file of [_save_result] *)

Lemma digit_inj a b : digit a = digit b → a mod 10 = b mod 10.
Proof.
  unfold digit. intros H. apply (f_equal N_of_ascii) in H.
  pose proof (Z.mod_pos_bound a 10 eq_refl). pose proof (Z.mod_pos_bound b 10 eq_refl).
  rewrite !N_ascii_embedding in H by lia. lia.
Qed.

Lemma two_digits a b :
  0 ≤ a < 100 → 0 ≤ b < 100 → digit (a / 10) = digit (b / 10) → digit a = digit b → a = b.
Proof.
  intros Ha Hb H1%digit_inj H2%digit_inj.
  revert H1 H2. Z.to_euclidean_division_equations. lia.
Qed.

Lemma four_digits a b :
  0 ≤ a < 10000 → 0 ≤ b < 10000 →
  digit (a / 1000) = digit (b / 1000) → digit (a / 100) = digit (b / 100) →
  digit (a / 10) = digit (b / 10) → digit a = digit b → a = b.
Proof.
  intros Ha Hb H1%digit_inj H2%digit_inj H3%digit_inj H4%digit_inj.
  revert H1 H2 H3 H4. Z.to_euclidean_division_equations. lia.
Qed.

Lemma filename_inj t1 t2 :
  clock_time t1 → clock_time t2 → filename t1 = filename t2 → same_second t1 t2.
Proof.
  intros (? & ? & ? & ? & ? & ?) (? & ? & ? & ? & ? & ?).
  unfold filename, strftime. cbn [String.append].
  intros [= Y1 Y2 Y3 Y4 M1 M2 D1 D2 h1 h2 m1 m2 s1 s2].
  unfold same_second. split; [apply four_digits; (done || lia)|].
  repeat split; apply two_digits; (done || lia).
Qed.

Lemma filename_same_second t1 t2 : same_second t1 t2 → filename t1 = filename t2.
Proof.
  intros (Hy & Hm & Hd & Hh & Hmi & Hs). unfold filename, strftime.
  by rewrite Hy, Hm, Hd, Hh, Hmi, Hs.
Qed.

(** X14. The name of the file has the time of the save to the second. Two
    saves, one after the other: the file of the second has its collection;
    when both are in the same second they write the same file, and nothing
    is left of the first save; otherwise the file of the first save is
    still there; no other file is touched. *)
Theorem save_result_files now1 now2 features1 features2 document1 document2 fs :
  clock_time now1 → clock_time now2 →
  geojson features1 = Ok document1 → geojson features2 = Ok document2 →
  ∃ fs1 fs2,
    _save_result now1 features1 fs = Ok fs1
    ∧ _save_result now2 features2 fs1 = Ok fs2
    ∧ fs2 !! filename now2 = Some document2
    ∧ (same_second now1 now2 → fs2 = <[filename now2 := document2]> fs)
    ∧ (¬ same_second now1 now2 → fs2 !! filename now1 = Some document1)
    ∧ (∀ name, name ≠ filename now1 → name ≠ filename now2 → fs2 !! name = fs !! name).
Proof.
  intros Ht1 Ht2 Hd1 Hd2. unfold _save_result. rewrite Hd1, Hd2. simpl.
  eexists _, _. split; [done|]. split; [done|].
  split; [by rewrite lookup_insert_eq|]. split; [|split].
  - intros Hsame. rewrite (filename_same_second _ _ Hsame). by rewrite insert_insert_eq.
  - intros Hne. rewrite lookup_insert_ne, lookup_insert_eq; [done|].
    intros Heq. apply Hne. by apply filename_inj.
  - intros name H1 H2. by rewrite !lookup_insert_ne.
Qed.

Lemma save_result_files_witness :
  same_second (mkDatetime 2026 11 6 1 2 3 0) (mkDatetime 2026 11 6 1 2 3 999)
  ∧ filename (mkDatetime 2026 11 6 1 2 3 0) = "notes_2026-11-06_01-02-03.geojson"
  ∧ ∃ fs1 fs2,
      _save_result (mkDatetime 2026 11 6 1 2 3 0) [record 1 1 1 "a" ""] ∅ = Ok fs1
      ∧ _save_result (mkDatetime 2026 11 6 1 2 3 999) [] fs1 = Ok fs2
      ∧ fs2 = {[ "notes_2026-11-06_01-02-03.geojson" :=
                   dict [("type", VStr "FeatureCollection"); ("features", VList [])] ]}.
Proof.
  assert (Hs : same_second (mkDatetime 2026 11 6 1 2 3 0) (mkDatetime 2026 11 6 1 2 3 999))
    by (repeat split).
  assert (H1 : clock_time (mkDatetime 2026 11 6 1 2 3 0))
    by (unfold clock_time; simpl; lia).
  assert (H2 : clock_time (mkDatetime 2026 11 6 1 2 3 999))
    by (unfold clock_time; simpl; lia).
  assert (H3 : geojson [record 1 1 1 "a" ""]
               = Ok (dict [("type", VStr "FeatureCollection");
                           ("features", VList [record 1 1 1 "a" ""])]))
    by (vm_compute; reflexivity).
  assert (H4 : geojson [] = Ok (dict [("type", VStr "FeatureCollection");
                                      ("features", VList [])]))
    by reflexivity.
  split; [exact Hs|]. split; [reflexivity|].
  destruct (save_result_files _ _ _ _ _ _ ∅ H1 H2 H3 H4)
    as (fs1 & fs2 & Hf1 & Hf2 & _ & Hsame & _).
  exists fs1, fs2. split; [exact Hf1|]. split; [exact Hf2|].
  rewrite (Hsame Hs). reflexivity.
Defined.

(** ** [tags] *)

Lemma str_join_cons sep t t' l :
  str_join sep (t :: t' :: l) = t +:+ sep +:+ str_join sep (t' :: l).
Proof. reflexivity. Qed.

Lemma findall_joined l :
  Forall is_hashtag l → re_findall_hashtags (str_join " " l) = l.
Proof.
  induction 1 as [|t l (w & -> & Hw & Hns) Hl IH]; [done|].
  simpl in Hns.
  destruct l as [|t' l].
  - pose proof (findall_first_word EmptyString w EmptyString eq_refl Hw Hns eq_refl) as H.
    change (re_findall_hashtags (String hash_char w +:+ "") = [String hash_char w]) in H.
    by rewrite string_app_nil in H.
  - rewrite str_join_cons.
    pose proof (findall_first_word EmptyString w (" " +:+ str_join " " (t' :: l))
                  eq_refl Hw Hns eq_refl) as H.
    change (re_findall_hashtags (String hash_char w +:+ " " +:+ str_join " " (t' :: l))
            = String hash_char w :: re_findall_hashtags (str_join " " (t' :: l))) in H.
    by rewrite H, IH.
Qed.

(** X15. [tags] can be read back: the hashtags of the string [tags] of a
    record are the hashtags of its [text], each one once, in the order in
    which the set was iterated. *)
Theorem tags_round_trip si feature r :
  valid_set_iter si → process_feature_result si feature = Ok r →
  ∃ text tags,
    (get_prop "text" r).1 = Ok (VStr text) ∧ (get_prop "tags" r).1 = Ok (VStr tags)
    ∧ re_findall_hashtags tags = si (re_findall_hashtags text)
    ∧ NoDup (re_findall_hashtags tags)
    ∧ ∀ t, t ∈ re_findall_hashtags tags ↔ t ∈ re_findall_hashtags text.
Proof.
  intros Hsi (fd & pd & comments & first_comment & pd' & -> & _ & _ & _ & Hn & ->)
    %process_feature_Ok_inv.
  apply normalized_properties_Ok in Hn
    as (cd & text & date & year & -> & _ & _ & _ & _ & _ & _ & ->).
  destruct (updated_properties_set pd (default (VStr "anonymous") (cd !! "user")) (VStr text)
              (VStr (str_join " " (si (re_findall_hashtags text)))) year)
    as (_ & Htx & Htg & _).
  exists text, (str_join " " (si (re_findall_hashtags text))).
  rewrite !get_prop_with. simpl. unfold getitem. rewrite Htx, Htg.
  split; [done|]. split; [done|].
  destruct (Hsi (re_findall_hashtags text)) as [Hnd Hel].
  assert (Hrt : re_findall_hashtags (str_join " " (si (re_findall_hashtags text)))
                = si (re_findall_hashtags text)).
  { apply findall_joined. apply Forall_forall. intros t Ht%Hel.
    pose proof (findall_from_hashtags text None I) as Hall.
    rewrite Forall_forall in Hall. by apply Hall. }
  rewrite Hrt. done.
Qed.

Lemma tags_round_trip_witness :
  process_feature_result first_seen (note 7 1 2 [comment "missing #bench near #fountain"])
  = Ok (record 7 1 2 "missing #bench near #fountain" "#bench #fountain")
  ∧ ∃ text tags,
      (get_prop "text" (record 7 1 2 "missing #bench near #fountain" "#bench #fountain")).1
      = Ok (VStr text)
      ∧ (get_prop "tags" (record 7 1 2 "missing #bench near #fountain" "#bench #fountain")).1
        = Ok (VStr tags)
      ∧ re_findall_hashtags tags = first_seen (re_findall_hashtags text).
Proof.
  assert (H : process_feature_result first_seen
                (note 7 1 2 [comment "missing #bench near #fountain"])
              = Ok (record 7 1 2 "missing #bench near #fountain" "#bench #fountain"))
    by (vm_compute; reflexivity).
  split; [exact H|].
  destruct (tags_round_trip first_seen _ _ first_seen_valid H)
    as (text & tags & Ht & Hg & Hrt & _).
  exists text, tags. split; [exact Ht|]. split; [exact Hg|exact Hrt].
Defined.
